(** * part3.py: sentiment classifier pipeline — tokenizer, augmentation,
      training-set construction and evaluation plumbing.

    The file embeds the functions of [part3.py] as Rocq definitions and
    proves the properties its specification states about them.

    Conventions of the embedding
    - a Python [str] is a [string]; a character is a code point in the
      Latin-1 range U+0000..U+00FF, on which [str.isalnum], [str.isspace]
      and [str.lower] are the tables given below.  Texts with other code
      points are not strings of the embedding: on them [str.lower] is no
      longer a map of single characters (the lower case of U+0130 is the
      two code points U+0069 U+0307, the second not alphanumeric), and
      what is proved of [lower] here is proved of the Latin-1 texts only;
    - a Python [float] is an IEEE binary64 number, a [spec_float] computed
      with precision 53 and maximal exponent 1024;
    - the ambient numpy generator is an oracle of outcomes (a tape that is
      read one cell per call);
    - Python list objects that are passed by reference live in a store;
    - a raised exception is the result [None]. *)

From Stdlib Require Import ZArith NArith QArith Qround Ascii String List Lia.
From Stdlib Require Import Floats.SpecFloat.
From stdpp Require Import base tactics option list strings.

Open Scope Z_scope.

(* ------------------------------------------------------------------ *)
(** * Python built-ins on strings *)

Module Py.

(** Code point of a character. *)
Definition ord (c : ascii) : N := N_of_ascii c.

Definition between (lo hi n : N) : bool := ((lo <=? n) && (n <=? hi))%N.

(** [c.isalnum()]: letters, decimal digits and other numeric characters. *)
Definition isalnum (c : ascii) : bool :=
  let n := ord c in
  between 48 57 n || between 65 90 n || between 97 122 n
  || (n =? 170)%N || between 178 179 n || (n =? 181)%N
  || between 185 186 n || between 188 190 n
  || between 192 214 n || between 216 246 n || between 248 255 n.

(** [c.isspace()], the separators of [str.split()]. *)
Definition isspace (c : ascii) : bool :=
  let n := ord c in
  between 9 13 n || between 28 32 n || (n =? 133)%N || (n =? 160)%N.

(** [c.lower()], for a code point of the Latin-1 range: the lower case
    is one code point of the same range. *)
Definition lower_char (c : ascii) : ascii :=
  let n := ord c in
  if between 65 90 n || between 192 214 n || between 216 222 n
  then ascii_of_N (n + 32) else c.

(** [s.lower()], for a string of the Latin-1 range: character by
    character. *)
Fixpoint lower (s : string) : string :=
  match s with
  | EmptyString => EmptyString
  | String c s' => String (lower_char c) (lower s')
  end.

(** [s.rstrip(ch)] for a single character [ch]. *)
Fixpoint rstrip (ch : ascii) (s : string) : string :=
  match s with
  | EmptyString => EmptyString
  | String c s' =>
      match rstrip ch s' with
      | EmptyString => if Ascii.eqb c ch then EmptyString else String c EmptyString
      | r => String c r
      end
  end.

(** [sep.join(l)]. *)
Fixpoint join (sep : string) (l : list string) : string :=
  match l with
  | [] => ""
  | [x] => x
  | x :: l' => x +:+ sep +:+ join sep l'
  end.

(** [s.replace(old, new)] for a non-empty [old]: the occurrences of
    [old] are replaced from left to right and do not overlap.  [skip]
    is the number of characters of a matched occurrence still to drop. *)
Fixpoint replace_from (old new : string) (skip : nat) (s : string) : string :=
  match s with
  | EmptyString => EmptyString
  | String c s' =>
      match skip with
      | S k => replace_from old new k s'
      | O =>
          if String.prefix old s
          then new +:+ replace_from old new (String.length old - 1) s'
          else String c (replace_from old new O s')
      end
  end.

Definition replace (old new s : string) : string := replace_from old new O s.

(** [s.split()]: the maximal runs of non-whitespace characters.  [cur]
    is the run being read. *)
Definition flush (cur : string) : list string :=
  match cur with EmptyString => [] | _ => [cur] end.

Fixpoint split_from (cur : string) (s : string) : list string :=
  match s with
  | EmptyString => flush cur
  | String c s' =>
      if isspace c then flush cur ++ split_from "" s'
      else split_from (cur +:+ String c "") s'
  end.

Definition split (s : string) : list string := split_from "" s.

(** Every character of [s] satisfies [p]. *)
Fixpoint all_chars (p : ascii -> bool) (s : string) : bool :=
  match s with
  | EmptyString => true
  | String c s' => p c && all_chars p s'
  end.

(** [sys.maxsize]: no list has more items. *)
Definition maxsize : Z := 2 ^ 63 - 1.

End Py.

(* ------------------------------------------------------------------ *)
(** * Preprocessing *)

Module PreProcessing.

(** [pre]: called after tokenization. *)
Definition pre (x : list string) : list string := x.

(** [post]: called after numericalization. *)
Definition post {B V : Type} (batch : B) (vocab : V) : B := batch.

(** The comprehension [[c if c.isalnum() else " " for c in string]]. *)
Definition blank_non_alnum (s : string) : list string :=
  map (fun c => if Py.isalnum c then String c "" else " ")
      (list_ascii_of_string s).

Definition tokenizer (text : string) : list string :=
  let string := Py.replace "<br />" " " text in
  let string := Py.join "" (blank_non_alnum string) in
  Py.split string.

(** [text_field.preprocess]: a sequential field with [lower=True]
    tokenizes its argument without the newlines at its end, lower-cases
    every token, then applies [preprocessing]. *)
Definition text_field_preprocess (x : string) : list string :=
  pre (map Py.lower (tokenizer (Py.rstrip "010" x))).

(** A field with [sequential=False], [lower=False] and no preprocessing
    hook (the label field of [main]) keeps its value as it is. *)
Definition label_field_preprocess (x : string) : string := x.

End PreProcessing.

(* ------------------------------------------------------------------ *)
(** * Python floats *)

Module Float.

Definition prec : Z := 53.
Definition emax : Z := 1024.

(** [float(z)] for an integer [z]. *)
Definition of_Z (z : Z) : spec_float := binary_normalize prec emax z 0 false.

Definition mul : spec_float -> spec_float -> spec_float := SFmul prec emax.
Definition div : spec_float -> spec_float -> spec_float := SFdiv prec emax.

(** [x > y]. *)
Definition gtb (x y : spec_float) : bool := SFltb y x.

(** [int(x)]: truncation toward zero; infinities and NaN raise. *)
Definition to_int (x : spec_float) : option Z :=
  match x with
  | S754_zero _ => Some 0
  | S754_finite s m e =>
      let v := if 0 <=? e then Z.pos m * 2 ^ e else Z.pos m / 2 ^ (- e) in
      Some (if s then - v else v)
  | _ => None
  end.

(** The literals [0.3] and [0.2]. *)
Definition lit_0_3 : spec_float := S754_finite false 5404319552844595 (-54).
Definition lit_0_2 : spec_float := S754_finite false 7205759403792794 (-55).

End Float.

(* ------------------------------------------------------------------ *)
(** * The store, the random generator and the monad of the program *)

(** A reference to a Python list of strings. *)
Definition loc := nat.

(** The state a function of the program runs in: the outcomes the numpy
    generator is going to produce ([tape], read at [pos]) and the list
    objects allocated so far ([heap], a reference is an index in it). *)
Record state := mkState {
  tape : nat -> N;
  pos : nat;
  heap : list (list string)
}.

(** A computation returns a value and a new state, or raises. *)
Definition M (A : Type) : Type := state -> option (A * state).

Global Instance M_ret : MRet M := fun A (a : A) st => Some (a, st).

Global Instance M_bind : MBind M := fun A B (k : A -> M B) (m : M A) st =>
  match m st with
  | Some (a, st') => k a st'
  | None => None
  end.

Definition raise {A} : M A := fun _ => None.

Module Store.

(** A new list object holding [l]. *)
Definition new (l : list string) : M loc :=
  fun st => Some (length (heap st),
                  mkState (tape st) (pos st) (heap st ++ [l])).

(** The contents of the object at [a]. *)
Definition read (a : loc) : M (list string) :=
  fun st => match heap st !! a with
            | Some l => Some (l, st)
            | None => None
            end.

(** Overwrite the contents of the object at [a]. *)
Definition write (a : loc) (l : list string) : M unit :=
  fun st => match heap st !! a with
            | Some _ => Some (tt, mkState (tape st) (pos st) (<[a:=l]> (heap st)))
            | None => None
            end.

(** [len(a)]. *)
Definition len (a : loc) : M Z :=
  l ← read a; mret (Z.of_nat (length l)).

(** [a.copy()]. *)
Definition copy (a : loc) : M loc :=
  l ← read a; new l.

(** [a.append(x)]. *)
Definition append (a : loc) (x : string) : M unit :=
  l ← read a; write a (l ++ [x]).

(** Position of index [i] in a list of length [n]: negative indices
    count from the end, anything else out of range raises. *)
Definition position (n : nat) (i : Z) : option nat :=
  if (0 <=? i) && (i <? Z.of_nat n) then Some (Z.to_nat i)
  else if (- Z.of_nat n <=? i) && (i <? 0) then Some (Z.to_nat (i + Z.of_nat n))
  else None.

(** [a[i]]. *)
Definition getitem (a : loc) (i : Z) : M string :=
  l ← read a;
  match position (length l) i with
  | Some k => match l !! k with Some x => mret x | None => raise end
  | None => raise
  end.

(** [a[i] = x]. *)
Definition setitem (a : loc) (i : Z) (x : string) : M unit :=
  l ← read a;
  match position (length l) i with
  | Some k => write a (<[k:=x]> l)
  | None => raise
  end.

End Store.

Module Random.

(** The next outcome of the generator. *)
Definition draw : M N :=
  fun st => Some (tape st (pos st), mkState (tape st) (S (pos st)) (heap st)).

(** The double (k mod 2^53) / 2^53 of the unit interval. *)
Definition sample (k : N) : spec_float :=
  binary_normalize Float.prec Float.emax (Z.of_N (k mod 2 ^ 53)) (-53) false.

(** [np.random.uniform(0, 1)]: one of the 2^53 doubles k / 2^53. *)
Definition uniform01 : M spec_float :=
  k ← draw; mret (sample k).

(** [np.random.randint(low, high)]: an integer of [low, high);
    raises when the interval is empty. *)
Definition randint (low high : Z) : M Z :=
  if low <? high
  then k ← draw; mret (low + Z.of_N k mod (high - low))
  else raise.

End Random.

(* ------------------------------------------------------------------ *)
(** * Data augmentation *)

(** A [data.Example]: its token list is a list object, its label a string. *)
Record Example := mkExample {
  text : loc;
  label : string
}.

(** [for i in l: body(i)].  The bodies below never write to the list
    they iterate over, so its contents are read once, before the loop. *)
Fixpoint for_each {A} (l : list A) (body : A -> M unit) : M unit :=
  match l with
  | [] => mret tt
  | x :: l' => body x;; for_each l' body
  end.

(** [for i in range(n): body]. *)
Fixpoint for_range (n : nat) (body : M unit) : M unit :=
  match n with
  | O => mret tt
  | S k => body;; for_range k body
  end.

Definition rand_del (words : loc) (prob : spec_float) : M string :=
  result ← Store.new [];
  n ← Store.len words;
  result ← (if n =? 1 then mret words
            else
              ws ← Store.read words;
              for_each ws (fun i =>
                u ← Random.uniform01;
                if Float.gtb u prob then Store.append result i else mret tt);;
              m ← Store.len result;
              (if m =? 0
               then
                 n' ← Store.len words;
                 k ← Random.randint 0 n';
                 w ← Store.getitem words k;
                 Store.append result w
               else mret tt);;
              mret result);
  r ← Store.read result;
  mret (Py.join " " r).

(** [result[r1], result[r2] = result[r2], result[r1]]. *)
Definition swap_items (result : loc) (r1 r2 : Z) : M unit :=
  x2 ← Store.getitem result r2;
  x1 ← Store.getitem result r1;
  Store.setitem result r1 x2;;
  Store.setitem result r2 x1.

(** The inner loop [for j in range(3)], left by [break] after a swap. *)
Fixpoint swap_candidates (tries : nat) (words result : loc) (r1 : Z) : M unit :=
  match tries with
  | O => mret tt
  | S k =>
      n ← Store.len words;
      r2 ← Random.randint 0 n;
      if negb (r1 =? r2) then swap_items result r1 r2
      else swap_candidates k words result r1
  end.

(** One iteration of the outer loop. *)
Definition swap_attempt (words result : loc) : M unit :=
  n ← Store.len words;
  r1 ← Random.randint 0 n;
  swap_candidates 3 words result r1.

Definition rand_swap (words : loc) (n : Z) : M string :=
  result ← Store.copy words;
  for_range (Z.to_nat n) (swap_attempt words result);;
  r ← Store.read result;
  mret (Py.join " " r).

(** [data.Example.fromlist([text, label], fields)]: every value that is
    a string loses the newlines at its end, then it is given to the
    [preprocess] of its field; the tokens of the text are a new list. *)
Definition fromlist (txt lbl : string) : M Example :=
  let txt := Py.rstrip "010" txt in
  let lbl := Py.rstrip "010" lbl in
  t ← Store.new (PreProcessing.text_field_preprocess txt);
  mret (mkExample t (PreProcessing.label_field_preprocess lbl)).

(** [max(1, int(0.2 * n))]. *)
Definition swap_count (n : Z) : option Z :=
  k ← Float.to_int (Float.mul Float.lit_0_2 (Float.of_Z n));
  Some (Z.max 1 k).

(** The body of the loop of [aug_sentence]: the two examples it adds. *)
Definition aug_round (txt : loc) (lbl : string) : M (list Example) :=
  rd ← rand_del txt Float.lit_0_3;
  n ← Store.len txt;
  rs ← match swap_count n with
       | Some k => rand_swap txt k
       | None => raise
       end;
  rd_example ← fromlist rd lbl;
  rs_example ← fromlist rs lbl;
  mret [rd_example; rs_example].

Fixpoint aug_rounds (n : nat) (txt : loc) (lbl : string)
    (augmented : list Example) : M (list Example) :=
  match n with
  | O => mret augmented
  | S k =>
      new ← aug_round txt lbl;
      aug_rounds k txt lbl (augmented ++ new)
  end.

Definition aug_sentence (txt : loc) (lbl : string) : M (list Example) :=
  aug_rounds 2 txt lbl [].

(** A token as the tokenizer produces it: non-empty and alphanumeric. *)
Definition wf_token (t : string) : Prop :=
  t <> "" /\ Py.all_chars Py.isalnum t = true.

(* ------------------------------------------------------------------ *)
(** * The network *)

Module Network.
Section Network.

(** Elements of tensors (single-precision floats) and the state of the
    generator the dropout layers draw their masks from. *)
Variables (scalar G : Type).

Definition matrix : Type := list (list scalar).
Definition tensor3 : Type := list matrix.

(** The layers of [__init__]: the two-layer bidirectional LSTM (with its
    dropout between the layers), the dropout layer and the linear head
    with one output feature.  They are functions of their input, the
    parameters are part of them. *)
Record t := mk {
  lstm : tensor3 -> G -> (tensor3 * (tensor3 * tensor3)) * G;
  dropout : matrix -> G -> matrix * G;
  fc : list scalar -> scalar
}.

(** [x[-k, :, :]] for [k >= 1]. *)
Definition from_end (x : tensor3) (k : nat) : option matrix :=
  if (1 <=? k)%nat && (k <=? length x)%nat then x !! (length x - k)%nat
  else None.

(** [torch.cat((a, b), dim=1)]: the rows are joined, their number must
    be the same. *)
Definition cat1 (a b : matrix) : option matrix :=
  if (length a =? length b)%nat then Some (zip_with app a b) else None.

(** [x.view(batchSize, -1)[:, -1]] on the elements [data] of [x] in
    row-major order: the last element of each of [batchSize] rows. *)
Definition view_last (batchSize : nat) (data : list scalar) : option (list scalar) :=
  if (batchSize =? 0)%nat then None
  else
    let w := (length data / batchSize)%nat in
    if (length data mod batchSize =? 0)%nat && (1 <=? w)%nat
    then mapM (fun r => data !! (r * w + (w - 1))%nat) (seq 0 batchSize)
    else None.

(** [forward(self, input, length)].  [hidden.squeeze(0)] only changes
    the shape (when the batch has one example); the elements [fc]
    produces, in row-major order, are one per row of [hidden]. *)
Definition forward (self : t) (input : tensor3) (length : list Z) (g : G)
    : option (list scalar * G) :=
  let batchSize := List.length input in
  let '(lstm_out, (hn, cn), g) := lstm self input g in
  fwd ← from_end hn 2;
  bwd ← from_end hn 1;
  joined ← cat1 fwd bwd;
  let '(hidden, g) := dropout self joined g in
  out ← view_last batchSize (map (fc self) hidden);
  Some (out, g).

End Network.

Arguments mk {scalar G}.
Arguments lstm {scalar G}.
Arguments dropout {scalar G}.
Arguments fc {scalar G}.
Arguments from_end {scalar}.
Arguments cat1 {scalar}.
Arguments view_last {scalar}.
Arguments forward {scalar G}.

End Network.

(* ------------------------------------------------------------------ *)
(** * Training and evaluation *)

(** [torch.round] on a finite value: to the nearest integer, halves to
    the even one. *)
Definition round_half_even (q : Q) : Z :=
  let f := Qfloor q in
  match Qcompare (q - inject_Z f) (1 # 2) with
  | Lt => f
  | Gt => f + 1
  | Eq => if Z.even f then f else f + 1
  end.

(** [a == b] on one-dimensional tensors: element by element, a tensor
    with one element is broadcast, other shapes do not match. *)
Definition tensor_eq {A B} (eqb : A -> B -> bool) (a : list A) (b : list B)
    : option (list bool) :=
  if (length a =? length b)%nat then Some (zip_with eqb a b)
  else match a, b with
       | [x], _ => Some (map (eqb x) b)
       | _, [y] => Some (map (fun x => eqb x y) a)
       | _, _ => None
       end.

(** A label equals a prediction; a NaN prediction equals nothing. *)
Definition label_eqb (l : Z) (p : option Z) : bool :=
  match p with Some z => l =? z | None => false end.

Module Main.
Section Main.

Variables (scalar G Loss Opt : Type).

Definition Net : Type := Network.t scalar G.

(** What [main] takes from its libraries:
    - [embed h batch]: the padded token ids of the batch looked up in the
      embedding table, [vectors[batch.text[0]]], and the true lengths
      [batch.text[1]], for the token lists in the store [h];
    - [label_id]: the id of a label in the vocabulary of the label field;
    - [criterion]: the loss [lossFunc()] returns;
    - [update]: [zero_grad], [backward] and the step of the optimiser;
    - [sigmoid]: [torch.sigmoid], [None] when the value is NaN;
    - [bucket_iterator]: the batches a [BucketIterator] yields in one
      pass over a dataset. *)
Variable embed : list (list string) -> list Example -> Network.tensor3 scalar * list Z.
Variable label_id : string -> Z.
Variable criterion : list scalar -> list Z -> Loss.
Variable update : Opt -> Net -> Loss -> Opt * Net.
Variable sigmoid : scalar -> option Q.
Variable bucket_iterator : list Example -> list (list Example).

(** [batch.label.type(torch.FloatTensor)]: the ids, as floats. *)
Definition raw_labels (batch : list Example) : list Z :=
  map (fun e => label_id (label e)) batch.

(** [labels -= 1]. *)
Definition shift_labels (labels : list Z) : list Z :=
  map (fun l => l - 1) labels.

(** The targets of a batch in the words of the specification: the raw
    label of every example, less one. *)
Definition targets (batch : list Example) : list Z :=
  map (fun e => label_id (label e) - 1) batch.

(** The hard predictions for the logits [out]: the sigmoid, rounded. *)
Definition predictions (out : list scalar) : list (option Z) :=
  map (fun x => option_map round_half_even (sigmoid x)) out.

(** The examples [aug_sentence] makes of every example of [exs]. *)
Fixpoint augment_all (exs aug_examples : list Example) : M (list Example) :=
  match exs with
  | [] => mret aug_examples
  | i :: rest =>
      new ← aug_sentence (text i) (label i);
      augment_all rest (aug_examples ++ new)
  end.

(** The examples of [train] after the two [extend]. *)
Definition training_set (train dev : list Example) : M (list Example) :=
  let train := train ++ dev in
  aug_examples ← augment_all train [];
  mret (train ++ aug_examples).

(** The body of the training loop; the result is the loss of the batch
    and the updated optimiser, network and generator. *)
Definition train_batch (h : list (list string)) (opt : Opt) (net : Net) (g : G)
    (batch : list Example) : option (Loss * (Opt * Net * G)) :=
  let '(inputs, length) := embed h batch in
  let labels := raw_labels batch in
  let labels := shift_labels labels in
  '(output, g) ← Network.forward net inputs length g;
  let loss := criterion output labels in
  let '(opt, net) := update opt net loss in
  Some (loss, (opt, net, g)).

Fixpoint train_epoch (h : list (list string)) (opt : Opt) (net : Net) (g : G)
    (batches : list (list Example)) : option (Opt * Net * G) :=
  match batches with
  | [] => Some (opt, net, g)
  | batch :: rest =>
      '(_, (opt, net, g)) ← train_batch h opt net g batch;
      train_epoch h opt net g rest
  end.

(** The body of the evaluation loop: the number of correct predictions
    of the batch. *)
Definition eval_batch (h : list (list string)) (net : Net) (g : G)
    (batch : list Example) : option (Z * G) :=
  let '(inputs, length) := embed h batch in
  let labels := raw_labels batch in
  let labels := shift_labels labels in
  '(out, g) ← Network.forward net inputs length g;
  let outputs := map sigmoid out in
  let predicted := map (option_map round_half_even) outputs in
  eq ← tensor_eq label_eqb labels predicted;
  Some (Z.of_nat (count_occ bool_dec eq true), g).

Fixpoint eval_loop (h : list (list string)) (net : Net) (g : G)
    (num_correct : Z) (batches : list (list Example)) : option (Z * G) :=
  match batches with
  | [] => Some (num_correct, g)
  | batch :: rest =>
      '(c, g) ← eval_batch h net g batch;
      eval_loop h net g (num_correct + c) rest
  end.

(** The numbers of matches of the batches, one for each batch and in
    the order of the batches, the generator going from one batch to the
    next. *)
Fixpoint batch_counts (h : list (list string)) (net : Net) (g : G)
    (batches : list (list Example)) : option (list Z * G) :=
  match batches with
  | [] => Some ([], g)
  | batch :: rest =>
      '(c, g) ← eval_batch h net g batch;
      '(cs, g) ← batch_counts h net g rest;
      Some (c :: cs, g)
  end.

(** [100 * num_correct / len(dev)]; the division by zero raises. *)
Definition accuracy (num_correct : Z) (dev : list Example) : option Q :=
  if (length dev =? 0)%nat then None
  else Some (inject_Z (100 * num_correct) / inject_Z (Z.of_nat (length dev)))%Q.

(** The evaluation of [main]: the loop over the batches of [dev], then
    the accuracy. *)
Definition evaluate (h : list (list string)) (net : Net) (g : G)
    (dev : list Example) : option Q :=
  '(num_correct, _) ← eval_loop h net g 0 (bucket_iterator dev);
  accuracy num_correct dev.

End Main.

Arguments predictions {scalar}.
Arguments train_batch {scalar G Loss Opt}.
Arguments train_epoch {scalar G Loss Opt}.
Arguments eval_batch {scalar G}.
Arguments eval_loop {scalar G}.
Arguments batch_counts {scalar G}.
Arguments evaluate {scalar G}.

End Main.

(* ------------------------------------------------------------------ *)
(** * The augmentation as a function of the generator's outcomes

    The definitions of this part follow the words of the specification;
    the properties below compare them with the functions of the program. *)

(** The index [np.random.randint(0, n)] returns when the generator is at
    cell [p] of its tape. *)
Definition pick (tp : nat -> N) (p n : nat) : nat :=
  Z.to_nat (Z.of_N (tp p) mod Z.of_nat n).

(** The list [l] with the items at positions [i] and [j] exchanged. *)
Definition swap_list (l : list string) (i j : nat) : list string :=
  match l !! j, l !! i with
  | Some x2, Some x1 => <[j:=x1]> (<[i:=x2]> l)
  | _, _ => l
  end.

(** Up to [tries] candidate second indices: the two positions are swapped
    on the first candidate that differs from [r1], otherwise nothing
    happens.  The result is the list and the next cell of the tape. *)
Fixpoint try_candidates (tries : nat) (tp : nat -> N) (p r1 : nat)
    (l : list string) : list string * nat :=
  match tries with
  | O => (l, p)
  | S k =>
      let r2 := pick tp p (length l) in
      if decide (r1 = r2) then try_candidates k tp (S p) r1 l
      else (swap_list l r1 r2, S p)
  end.

(** One swap attempt. *)
Definition attempt (tp : nat -> N) (lp : list string * nat) : list string * nat :=
  try_candidates 3 tp (S lp.2) (pick tp lp.2 (length lp.1)) lp.1.

(** [n] swap attempts in a row. *)
Definition attempts (tp : nat -> N) (n : nat) (l : list string) (p : nat)
    : list string * nat :=
  Nat.iter n (attempt tp) (l, p).

(** The draw [k] keeps a token: the uniform sample it stands for is
    above [prob]. *)
Definition keeps (prob : spec_float) (k : N) : bool :=
  Float.gtb (Random.sample k) prob.

(** The tokens of [ws] kept by one pass that starts at cell [p]. *)
Fixpoint kept_tokens (tp : nat -> N) (p : nat) (prob : spec_float)
    (ws : list string) : list string :=
  match ws with
  | [] => []
  | w :: ws' =>
      (if keeps prob (tp p) then [w] else []) ++ kept_tokens tp (S p) prob ws'
  end.

(** Random deletion: a single token is returned as it is; otherwise each
    token is kept or dropped, and when all are dropped one token of the
    sequence, picked at random, is retained. *)
Definition deletion (tp : nat -> N) (p : nat) (prob : spec_float)
    (ws : list string) : list string * nat :=
  match ws with
  | [w] => ([w], p)
  | _ =>
      let p' := (p + length ws)%nat in
      match kept_tokens tp p prob ws with
      | [] => (option_list (ws !! pick tp p' (length ws)), S p')
      | kept => (kept, p')
      end
  end.

(** The list object [rand_del] leaves behind: the unused empty list when
    the input has one token, the retained tokens otherwise. *)
Definition del_object (ws kept : list string) : list string :=
  match ws with [_] => [] | _ => kept end.

(** [max(1, round(0.2 * n))], the number of attempts in the words of the
    specification, with the rounding of Python's [round]. *)
Definition spec_swap_count (n : Z) : Z :=
  Z.max 1 (round_half_even ((2 # 10) * inject_Z n)).

(** The lengths for which [int(0.2 * n)] is shown to be the quotient of
    [n] by 5: from 2^53 - 3 on, the rounding of the product can reach
    the next integer. *)
Definition length_bound : Z := 2 ^ 50.

(** The tokens the two transforms of a round of [aug_sentence] produce,
    and the cell of the tape they end at, when the round starts at cell
    [p] and makes [k] swap attempts; the store after the round. *)
Definition round_del (tp : nat -> N) (ws : list string) (p : nat)
    : list string * nat :=
  deletion tp p Float.lit_0_3 ws.

Definition round_swap (tp : nat -> N) (ws : list string) (k : Z) (p : nat)
    : list string * nat :=
  attempts tp (Z.to_nat k) ws (round_del tp ws p).2.

Definition round_heap (tp : nat -> N) (ws : list string) (k : Z) (p : nat)
    (h : list (list string)) : list (list string) :=
  h ++ [del_object ws (round_del tp ws p).1; (round_swap tp ws k p).1;
        PreProcessing.text_field_preprocess (Py.join " " (round_del tp ws p).1);
        PreProcessing.text_field_preprocess (Py.join " " (round_swap tp ws k p).1)].

(** An example [aug_sentence] accepts in the store [h]: its token list is
    there, is not empty and is shorter than [length_bound]. *)
Definition wf_example (h : list (list string)) (e : Example) : Prop :=
  exists ws, h !! text e = Some ws /\ ws <> []
             /\ Z.of_nat (length ws) < length_bound.

(* ------------------------------------------------------------------ *)
(** * A small instance

    Integer elements, no randomness in the layers, one batch per pass:
    enough to run the training-set construction and the evaluation on a
    store with two reviews. *)

Module Toy.

Definition embed (h : list (list string)) (batch : list Example)
    : Network.tensor3 Z * list Z :=
  (map (fun e => [[Z.of_nat (text e)]]) batch, map (fun _ => 1) batch).

Definition label_id (lbl : string) : Z :=
  if String.eqb lbl "pos" then 2 else 1.

Definition net : Network.t Z unit :=
  Network.mk
    (fun input g =>
       let m := map (fun seq => [Z.of_nat (length seq)]) input in
       (input, ([m; m; m; m], [m; m; m; m]), g))
    (fun x g => (x, g))
    (fun row => fold_right Z.add 0 row).

Definition sigmoid (x : Z) : option Q :=
  Some (if 2 <=? x then 3 # 4 else 1 # 4)%Q.

Definition bucket_iterator (exs : list Example) : list (list Example) := [exs].

Definition store : list (list string) := [["good"; "movie"]; ["bad"]].
Definition train : list Example := [mkExample 0%nat "pos"].
Definition dev : list Example := [mkExample 1%nat "neg"].

End Toy.


(* ------------------------------------------------------------------ *)
(** * The report of the running loss *)

Module Report.
Section Report.

Variables (scalar G Loss Opt : Type).

(** As in [Main], and:
    - [item]: [loss.item()], the value of a loss as a Python float;
    - [train_loader]: the batches [trainLoader] yields in its pass of the
      epoch of the given number (the loader shuffles). *)
Variable embed : list (list string) -> list Example -> Network.tensor3 scalar * list Z.
Variable label_id : string -> Z.
Variable criterion : list scalar -> list Z -> Loss.
Variable update : Opt -> Main.Net scalar G -> Loss -> Opt * Main.Net scalar G.
Variable item : Loss -> spec_float.
Variable train_loader : nat -> list (list Example).

(** [x + y] on floats. *)
Definition add : spec_float -> spec_float -> spec_float :=
  SFadd Float.prec Float.emax.

(** What one [print] of the training loop shows: [epoch + 1], [i + 1]
    and [running_loss / 32]. *)
Record line := mkLine {
  line_epoch : nat;
  line_batch : nat;
  line_loss : spec_float
}.

(** The loop over the batches of one epoch, from the batch of index [i],
    with the running loss and the lines printed so far.  The integer [0]
    the running loss is set to becomes the float [0.0] in the sum. *)
Fixpoint train_epoch (h : list (list string)) (epoch : nat) (opt : Opt)
    (net : Main.Net scalar G) (g : G) (i : nat) (running_loss : spec_float)
    (batches : list (list Example)) (out : list line)
    : option (Opt * Main.Net scalar G * G * list line) :=
  match batches with
  | [] => Some (opt, net, g, out)
  | batch :: rest =>
      '(loss, (opt, net, g)) ←
        Main.train_batch embed label_id criterion update h opt net g batch;
      let running_loss := add running_loss (item loss) in
      if (i mod 32 =? 31)%nat
      then
        train_epoch h epoch opt net g (S i) (Float.of_Z 0) rest
          (out ++ [mkLine (epoch + 1) (i + 1)
                     (Float.div running_loss (Float.of_Z 32))])
      else train_epoch h epoch opt net g (S i) running_loss rest out
  end.

(** [for epoch in ...]: the running loss starts from [0] in every epoch. *)
Fixpoint train_loop (h : list (list string)) (opt : Opt)
    (net : Main.Net scalar G) (g : G) (epochs : list nat) (out : list line)
    : option (Opt * Main.Net scalar G * G * list line) :=
  match epochs with
  | [] => Some (opt, net, g, out)
  | epoch :: rest =>
      '(opt, net, g, out) ←
        train_epoch h epoch opt net g 0 (Float.of_Z 0) (train_loader epoch) out;
      train_loop h opt net g rest out
  end.

(** The training of [main]: [range(10)]. *)
Definition train (h : list (list string)) (opt : Opt)
    (net : Main.Net scalar G) (g : G)
    : option (Opt * Main.Net scalar G * G * list line) :=
  train_loop h opt net g (seq 0 10) [].

(** The values [loss.item()] of the batches of an epoch, in their order. *)
Fixpoint losses (h : list (list string)) (opt : Opt)
    (net : Main.Net scalar G) (g : G) (batches : list (list Example))
    : option (list spec_float) :=
  match batches with
  | [] => Some []
  | batch :: rest =>
      '(loss, (opt, net, g)) ←
        Main.train_batch embed label_id criterion update h opt net g batch;
      xs ← losses h opt net g rest;
      Some (item loss :: xs)
  end.

End Report.

Arguments train_epoch {scalar G Loss Opt}.
Arguments train_loop {scalar G Loss Opt}.
Arguments train {scalar G Loss Opt}.
Arguments losses {scalar G Loss Opt}.

(** The sum of a window of losses, from [0.0] and in their order, by 32. *)
Definition window_mean (xs : list spec_float) : spec_float :=
  Float.div (fold_left add xs (Float.of_Z 0)) (Float.of_Z 32).

(** The lines an epoch prints for the losses [xs] of its batches, from
    the batch of index [i] with the running loss [running_loss]. *)
Fixpoint lines_of (epoch i : nat) (running_loss : spec_float)
    (xs : list spec_float) : list line :=
  match xs with
  | [] => []
  | x :: rest =>
      let running_loss := add running_loss x in
      if (i mod 32 =? 31)%nat
      then mkLine (epoch + 1) (i + 1) (Float.div running_loss (Float.of_Z 32))
             :: lines_of epoch (S i) (Float.of_Z 0) rest
      else lines_of epoch (S i) running_loss rest
  end.

End Report.
(* ================================================================== *)
(** * Properties *)

(** ** Values of the built-ins on examples *)

Example tokenizer_ex1 :
  PreProcessing.tokenizer "<br />Good! Movie--" = ["Good"; "Movie"].
Proof. vm_compute. reflexivity. Qed.

Example tokenizer_ex2 :
  PreProcessing.tokenizer "a<br />b <BR /> x<br/>y" = ["a"; "b"; "BR"; "x"; "br"; "y"].
Proof. vm_compute. reflexivity. Qed.

Example lit_0_3_nearest : Float.div (Float.of_Z 3) (Float.of_Z 10) = Float.lit_0_3.
Proof. vm_compute. reflexivity. Qed.

Example lit_0_2_nearest : Float.div (Float.of_Z 2) (Float.of_Z 10) = Float.lit_0_2.
Proof. vm_compute. reflexivity. Qed.

(** ** Strings *)

Lemma str_app_nil_r (s : string) : s +:+ "" = s.
Proof.
  induction s as [|c s IH]; [reflexivity|].
  change (String c (s +:+ "") = String c s). by rewrite IH.
Qed.

Lemma str_app_assoc (s1 s2 s3 : string) : (s1 +:+ s2) +:+ s3 = s1 +:+ (s2 +:+ s3).
Proof.
  induction s1 as [|c s1 IH]; [reflexivity|].
  change (String c ((s1 +:+ s2) +:+ s3) = String c (s1 +:+ (s2 +:+ s3))).
  by rewrite IH.
Qed.

Lemma str_app_nil_l (s : string) : "" +:+ s = s.
Proof. reflexivity. Qed.

Lemma str_app_cons (c : ascii) (s1 s2 : string) :
  String c s1 +:+ s2 = String c (s1 +:+ s2).
Proof. reflexivity. Qed.

Lemma str_app_empty (s1 s2 : string) : s1 +:+ s2 = "" -> s1 = "" /\ s2 = "".
Proof. destruct s1; [auto | discriminate]. Qed.

Lemma all_chars_app (p : ascii -> bool) (s1 s2 : string) :
  Py.all_chars p (s1 +:+ s2) = Py.all_chars p s1 && Py.all_chars p s2.
Proof.
  induction s1 as [|c s1 IH]; [reflexivity|].
  rewrite str_app_cons. cbn. rewrite IH. by rewrite andb_assoc.
Qed.

Lemma all_chars_impl (p q : ascii -> bool) (s : string) :
  (forall c, p c = true -> q c = true) ->
  Py.all_chars p s = true -> Py.all_chars q s = true.
Proof.
  intros Hpq. induction s as [|c s IH]; [done|].
  cbn. intros [Hc Hs]%andb_true_iff. rewrite (Hpq _ Hc). cbn. auto.
Qed.

(** An alphanumeric character is neither whitespace nor the first
    character of the line-break tag. *)
Lemma isalnum_not_space (c : ascii) : Py.isalnum c = true -> Py.isspace c = false.
Proof. destruct c as [[] [] [] [] [] [] [] []]; vm_compute; congruence. Qed.

Lemma isalnum_not_lt (c : ascii) : Py.isalnum c = true -> c <> "<"%char.
Proof. destruct c as [[] [] [] [] [] [] [] []]; vm_compute; congruence. Qed.

(** *** [split] *)

Lemma flush_tokens (p : ascii -> bool) (cur : string) :
  Py.all_chars p cur = true ->
  Forall (fun t => t <> "" /\ Py.all_chars p t = true) (Py.flush cur).
Proof. destruct cur; cbn; intros H; constructor; [split|]; done. Qed.

Lemma split_from_tokens (p : ascii -> bool) (s cur : string) :
  Py.all_chars p cur = true ->
  Py.all_chars (fun c => Py.isspace c || p c) s = true ->
  Forall (fun t => t <> "" /\ Py.all_chars p t = true) (Py.split_from cur s).
Proof.
  revert cur. induction s as [|c s IH]; intros cur Hcur Hs; cbn.
  - by apply flush_tokens.
  - cbn in Hs. apply andb_true_iff in Hs as [Hc Hs].
    destruct (Py.isspace c) eqn:Hsp.
    + apply Forall_app. split; [by apply flush_tokens | by apply IH].
    + apply IH; [|done]. rewrite all_chars_app, Hcur. cbn in *.
      by rewrite Hc.
Qed.

Lemma split_from_word (t rest cur : string) :
  Py.all_chars (fun c => negb (Py.isspace c)) t = true ->
  Py.split_from cur (t +:+ rest) = Py.split_from (cur +:+ t) rest.
Proof.
  revert cur. induction t as [|c t IH]; intros cur Ht.
  - by rewrite str_app_nil_r.
  - cbn in Ht. apply andb_true_iff in Ht as [Hc Ht].
    rewrite str_app_cons. cbn. apply negb_true_iff in Hc. rewrite Hc.
    rewrite IH by done. by rewrite str_app_assoc.
Qed.

Lemma split_join (toks : list string) :
  Forall wf_token toks -> Py.split (Py.join " " toks) = toks.
Proof.
  unfold Py.split. induction toks as [|t toks IH]; intros Hwf; [done|].
  apply Forall_cons in Hwf as [[Hne Ht] Hwf].
  assert (Hns : Py.all_chars (fun c => negb (Py.isspace c)) t = true).
  { eapply all_chars_impl; [|exact Ht].
    intros c Hc. by rewrite (isalnum_not_space _ Hc). }
  destruct toks as [|t' toks].
  - cbn [Py.join]. rewrite <- (str_app_nil_r t) at 1.
    rewrite split_from_word by done.
    change ("" +:+ t) with t. cbn. destruct t; done.
  - change (Py.join " " (t :: t' :: toks))
      with (t +:+ " " +:+ Py.join " " (t' :: toks)).
    rewrite split_from_word by done. rewrite str_app_cons.
    change ("" +:+ t) with t. cbn [Py.split_from].
    change (Py.isspace " ") with true. cbn iota.
    change ("" +:+ Py.join " " (t' :: toks)) with (Py.join " " (t' :: toks)).
    rewrite (IH Hwf). destruct t; done.
Qed.

(** *** [replace] and the blanking of other characters *)

Lemma replace_no_tag (s : string) :
  Py.all_chars (fun c => negb (Ascii.eqb c "<")) s = true ->
  Py.replace "<br />" " " s = s.
Proof.
  unfold Py.replace. induction s as [|c s IH]; [done|].
  cbn [Py.all_chars]. intros [Hc Hs]%andb_true_iff.
  cbn [Py.replace_from]. cbn [String.prefix].
  destruct (ascii_dec "<" c) as [<-|_]; [done|].
  by rewrite IH.
Qed.

Lemma blank_alnum_or_space (s : string) :
  Py.all_chars (fun c => Py.isalnum c || Ascii.eqb c " ") s = true ->
  Py.join "" (PreProcessing.blank_non_alnum s) = s.
Proof.
  unfold PreProcessing.blank_non_alnum.
  induction s as [|c s IH]; [done|].
  cbn [Py.all_chars]. intros [Hc Hs]%andb_true_iff.
  specialize (IH Hs). cbn [list_ascii_of_string map].
  assert (Hhd : (if Py.isalnum c then String c "" else " ") = String c "").
  { destruct (Py.isalnum c); [done|]. cbn in Hc.
    apply Ascii.eqb_eq in Hc. by subst. }
  rewrite Hhd.
  destruct (map _ (list_ascii_of_string s)) as [|y l] eqn:Hl.
  - cbn in IH. subst s. reflexivity.
  - cbn [Py.join]. cbn [Py.join] in IH. rewrite IH. reflexivity.
Qed.

Lemma blank_chars (s : string) :
  Py.all_chars (fun c => Py.isspace c || Py.isalnum c)
    (Py.join "" (PreProcessing.blank_non_alnum s)) = true.
Proof.
  unfold PreProcessing.blank_non_alnum.
  induction s as [|c s IH]; [done|].
  cbn [list_ascii_of_string map].
  set (hd := if Py.isalnum c then String c "" else " ").
  assert (Hhd : Py.all_chars (fun c => Py.isspace c || Py.isalnum c) hd = true).
  { subst hd. destruct (Py.isalnum c) eqn:E; cbn; [|done].
    rewrite E. by rewrite orb_true_r. }
  destruct (map _ (list_ascii_of_string s)) as [|y l] eqn:Hl.
  - done.
  - cbn [Py.join]. cbn [Py.join] in IH.
    rewrite all_chars_app, Hhd. cbn. exact IH.
Qed.

Lemma join_chars (p : ascii -> bool) (sep : string) (l : list string) :
  Py.all_chars p sep = true ->
  Forall (fun t => Py.all_chars p t = true) l ->
  Py.all_chars p (Py.join sep l) = true.
Proof.
  intros Hsep. induction l as [|t l IH]; [done|].
  intros [Ht Hl]%Forall_cons. destruct l as [|t' l]; [done|].
  change (Py.join sep (t :: t' :: l)) with (t +:+ sep +:+ Py.join sep (t' :: l)).
  rewrite !all_chars_app, Ht, Hsep. cbn. by apply IH.
Qed.

(** *** The tokenizer *)

Lemma tokenizer_tokens (txt : string) : Forall wf_token (PreProcessing.tokenizer txt).
Proof.
  unfold PreProcessing.tokenizer, Py.split.
  apply split_from_tokens; [done|]. apply blank_chars.
Qed.

(** Joining well-formed tokens with spaces and tokenizing gives the
    tokens back, unchanged. *)
Lemma tokenizer_join (toks : list string) :
  Forall wf_token toks -> PreProcessing.tokenizer (Py.join " " toks) = toks.
Proof.
  intros Hwf. unfold PreProcessing.tokenizer.
  assert (Hch : Py.all_chars (fun c => Py.isalnum c || Ascii.eqb c " ")
                  (Py.join " " toks) = true).
  { apply join_chars; [done|]. eapply Forall_impl; [exact Hwf|].
    intros t [_ Ht]. eapply all_chars_impl; [|exact Ht].
    intros c Hc. by rewrite Hc. }
  rewrite replace_no_tag.
  - rewrite blank_alnum_or_space by done. by apply split_join.
  - eapply all_chars_impl; [|exact Hch].
    intros c [Hc|Hc]%orb_true_iff.
    + apply negb_true_iff, Ascii.eqb_neq. by apply isalnum_not_lt.
    + apply Ascii.eqb_eq in Hc. by subst.
Qed.

(** ** The store and the generator *)

Lemma run_bind {A B} (m : M A) (k : A -> M B) (st : state) :
  (m ≫= k) st = match m st with Some (a, st') => k a st' | None => None end.
Proof. reflexivity. Qed.

Lemma run_ret {A} (a : A) (st : state) : (mret a : M A) st = Some (a, st).
Proof. reflexivity. Qed.

Lemma read_run (a : loc) tp p (h : list (list string)) (l : list string) :
  h !! a = Some l -> Store.read a (mkState tp p h) = Some (l, mkState tp p h).
Proof. intros H. unfold Store.read. cbn. by rewrite H. Qed.

Lemma len_run (a : loc) tp p (h : list (list string)) (l : list string) :
  h !! a = Some l ->
  Store.len a (mkState tp p h) = Some (Z.of_nat (length l), mkState tp p h).
Proof. intros H. unfold Store.len. by rewrite run_bind, (read_run _ _ _ _ _ H). Qed.

Lemma write_run (a : loc) tp p (h : list (list string)) (l0 l : list string) :
  h !! a = Some l0 ->
  Store.write a l (mkState tp p h) = Some (tt, mkState tp p (<[a:=l]> h)).
Proof. intros H. unfold Store.write. cbn. by rewrite H. Qed.

Lemma append_run (a : loc) tp p (h : list (list string)) (l : list string) x :
  h !! a = Some l ->
  Store.append a x (mkState tp p h) = Some (tt, mkState tp p (<[a:=l ++ [x]]> h)).
Proof.
  intros H. unfold Store.append.
  rewrite run_bind, (read_run _ _ _ _ _ H). by apply write_run with l.
Qed.

Lemma position_nat (n k : nat) : (k < n)%nat -> Store.position n (Z.of_nat k) = Some k.
Proof.
  intros H. unfold Store.position.
  assert (E : (0 <=? Z.of_nat k) && (Z.of_nat k <? Z.of_nat n) = true).
  { apply andb_true_iff. split; [apply Z.leb_le | apply Z.ltb_lt]; lia. }
  rewrite E. by rewrite Nat2Z.id.
Qed.

Lemma getitem_run (a : loc) tp p (h : list (list string)) (l : list string) k x :
  h !! a = Some l -> l !! k = Some x ->
  Store.getitem a (Z.of_nat k) (mkState tp p h) = Some (x, mkState tp p h).
Proof.
  intros H Hk. unfold Store.getitem.
  rewrite run_bind, (read_run _ _ _ _ _ H).
  rewrite position_nat by (by eapply lookup_lt_Some). by rewrite Hk.
Qed.

Lemma setitem_run (a : loc) tp p (h : list (list string)) (l : list string) k x :
  h !! a = Some l -> (k < length l)%nat ->
  Store.setitem a (Z.of_nat k) x (mkState tp p h)
  = Some (tt, mkState tp p (<[a:=<[k:=x]> l]> h)).
Proof.
  intros H Hk. unfold Store.setitem.
  rewrite run_bind, (read_run _ _ _ _ _ H).
  rewrite position_nat by done. by apply write_run with l.
Qed.

Lemma pick_lt (tp : nat -> N) (p n : nat) : (0 < n)%nat -> (pick tp p n < n)%nat.
Proof.
  intros Hn. unfold pick.
  pose proof (Z.mod_pos_bound (Z.of_N (tp p)) (Z.of_nat n)). lia.
Qed.

Lemma randint_run (n : nat) tp p (h : list (list string)) :
  (0 < n)%nat ->
  Random.randint 0 (Z.of_nat n) (mkState tp p h)
  = Some (Z.of_nat (pick tp p n), mkState tp (S p) h).
Proof.
  intros Hn. unfold Random.randint.
  assert (E : (0 <? Z.of_nat n) = true) by (apply Z.ltb_lt; lia).
  rewrite E. rewrite run_bind. cbn. unfold pick.
  rewrite Z.sub_0_r. rewrite Z2Nat.id; [done|].
  apply Z.mod_pos_bound. lia.
Qed.

Lemma randint_empty (high : Z) (st : state) :
  high <= 0 -> Random.randint 0 high st = None.
Proof.
  intros H. unfold Random.randint.
  assert (E : (0 <? high) = false) by (apply Z.ltb_ge; lia).
  by rewrite E.
Qed.

Lemma uniform01_run tp p (h : list (list string)) :
  Random.uniform01 (mkState tp p h) = Some (Random.sample (tp p), mkState tp (S p) h).
Proof. reflexivity. Qed.

Lemma heap_last_lookup (h0 : list (list string)) (l : list string) :
  (h0 ++ [l]) !! length h0 = Some l.
Proof. by apply list_lookup_middle. Qed.

Lemma heap_last_insert (h0 : list (list string)) (l l' : list string) :
  <[length h0:=l']> (h0 ++ [l]) = h0 ++ [l'].
Proof. rewrite insert_app_r_alt by lia. by rewrite Nat.sub_diag. Qed.

Lemma heap_old_lookup (h0 : list (list string)) (l x : list string) (a : loc) :
  h0 !! a = Some x -> (h0 ++ [l]) !! a = Some x.
Proof. intros H. rewrite lookup_app_l; [done|]. by eapply lookup_lt_Some. Qed.

(** ** Random swap *)

Lemma swap_list_length (l : list string) (i j : nat) :
  length (swap_list l i j) = length l.
Proof.
  unfold swap_list. destruct (l !! j), (l !! i); [|done..].
  by rewrite !length_insert.
Qed.

Lemma swap_list_perm (l : list string) (i j : nat) : swap_list l i j ≡ₚ l.
Proof.
  unfold swap_list. destruct (l !! j) eqn:Hj, (l !! i) eqn:Hi; [|done..].
  by apply Permutation_insert_swap.
Qed.

Lemma try_candidates_perm (tries : nat) tp p r1 (l : list string) :
  (try_candidates tries tp p r1 l).1 ≡ₚ l
  /\ length (try_candidates tries tp p r1 l).1 = length l.
Proof.
  revert p. induction tries as [|k IH]; intros p; cbn; [done|].
  case_decide; [apply IH|]. cbn.
  split; [apply swap_list_perm | apply swap_list_length].
Qed.

Lemma attempt_perm tp (lp : list string * nat) :
  (attempt tp lp).1 ≡ₚ lp.1 /\ length (attempt tp lp).1 = length lp.1.
Proof. unfold attempt. apply try_candidates_perm. Qed.

Lemma attempts_perm tp (n : nat) (l : list string) (p : nat) :
  (attempts tp n l p).1 ≡ₚ l /\ length (attempts tp n l p).1 = length l.
Proof.
  unfold attempts. induction n as [|n [IHp IHl]]; [done|].
  rewrite Nat.iter_succ.
  destruct (attempt_perm tp (Nat.iter n (attempt tp) (l, p))) as [Hp Hl].
  split; [by rewrite Hp | by rewrite Hl].
Qed.

(** Every attempt reads between two and four cells of the tape. *)
Lemma try_candidates_pos (tries : nat) tp p r1 (l : list string) :
  (p <= (try_candidates tries tp p r1 l).2 <= p + tries)%nat.
Proof.
  revert p. induction tries as [|k IH]; intros p; cbn; [lia|].
  case_decide; cbn; [|lia]. specialize (IH (S p)). lia.
Qed.

Section rand_swap_run.
Variables (tp : nat -> N) (h0 : list (list string)).
Variables (words : loc) (ws : list string).
Hypothesis Hwords : h0 !! words = Some ws.
Hypothesis Hne : ws <> [].

Lemma swap_items_run p (res : list string) (r1 r2 : nat) :
  (r1 < length res)%nat -> (r2 < length res)%nat ->
  swap_items (length h0) (Z.of_nat r1) (Z.of_nat r2) (mkState tp p (h0 ++ [res]))
  = Some (tt, mkState tp p (h0 ++ [swap_list res r1 r2])).
Proof using Type.
  intros H1 H2. unfold swap_items, swap_list.
  destruct (lookup_lt_is_Some_2 res r1 H1) as [x1 Hx1].
  destruct (lookup_lt_is_Some_2 res r2 H2) as [x2 Hx2].
  rewrite Hx1, Hx2.
  rewrite run_bind, (getitem_run _ _ _ _ res r2 x2)
    by (done || apply heap_last_lookup).
  rewrite run_bind, (getitem_run _ _ _ _ res r1 x1)
    by (done || apply heap_last_lookup).
  rewrite run_bind, (setitem_run _ _ _ _ res r1 x2)
    by (done || apply heap_last_lookup).
  rewrite heap_last_insert.
  rewrite (setitem_run _ _ _ _ (<[r1:=x2]> res) r2 x1)
    by (apply heap_last_lookup || by rewrite length_insert).
  by rewrite heap_last_insert.
Qed.

Lemma swap_candidates_run (tries : nat) p (res : list string) (r1 : nat) :
  length res = length ws -> (r1 < length ws)%nat ->
  swap_candidates tries words (length h0) (Z.of_nat r1) (mkState tp p (h0 ++ [res]))
  = Some (tt, mkState tp (try_candidates tries tp p r1 res).2
                (h0 ++ [(try_candidates tries tp p r1 res).1])).
Proof using Hwords Hne.
  intros Hlen Hr1. revert p.
  assert (Hpos : (0 < length ws)%nat) by (destruct ws; [done | cbn; lia]).
  induction tries as [|k IH]; intros p; [done|].
  cbn [swap_candidates try_candidates].
  rewrite run_bind, (len_run _ _ _ _ ws) by (by apply heap_old_lookup).
  rewrite run_bind, randint_run by done.
  rewrite Hlen.
  destruct (decide (r1 = pick tp p (length ws))) as [E|E].
  - rewrite <- E, Z.eqb_refl. cbn [negb]. apply IH.
  - assert (En : (Z.of_nat r1 =? Z.of_nat (pick tp p (length ws))) = false)
      by (apply Z.eqb_neq; lia).
    rewrite En. cbn [negb].
    apply swap_items_run; rewrite Hlen; [done|]. by apply pick_lt.
Qed.

Lemma swap_attempt_run p (res : list string) :
  length res = length ws ->
  swap_attempt words (length h0) (mkState tp p (h0 ++ [res]))
  = Some (tt, mkState tp (attempt tp (res, p)).2 (h0 ++ [(attempt tp (res, p)).1])).
Proof using Hwords Hne.
  intros Hlen. unfold swap_attempt, attempt.
  assert (Hpos : (0 < length ws)%nat) by (destruct ws; [done | cbn; lia]).
  rewrite run_bind, (len_run _ _ _ _ ws) by (by apply heap_old_lookup).
  rewrite run_bind, randint_run by done.
  cbn [fst snd]. rewrite Hlen.
  apply swap_candidates_run; [done | by apply pick_lt].
Qed.

Lemma swap_loop_run (n : nat) p (res : list string) :
  length res = length ws ->
  for_range n (swap_attempt words (length h0)) (mkState tp p (h0 ++ [res]))
  = Some (tt, mkState tp (attempts tp n res p).2 (h0 ++ [(attempts tp n res p).1])).
Proof using Hwords Hne.
  revert p res. induction n as [|n IH]; intros p res Hlen; [done|].
  cbn [for_range]. rewrite run_bind, swap_attempt_run by done.
  rewrite IH.
  - unfold attempts. rewrite !Nat.iter_succ_r.
    by destruct (attempt tp (res, p)).
  - destruct (try_candidates_perm 3 tp (S p) (pick tp p (length res)) res)
      as [_ Hl].
    unfold attempt. cbn [fst snd]. by rewrite Hl.
Qed.

(** [rand_swap] returns the tokens as [n] attempts leave them, in a new
    list object; no other object is written. *)
Lemma rand_swap_run (n : Z) p :
  rand_swap words n (mkState tp p h0)
  = Some (Py.join " " (attempts tp (Z.to_nat n) ws p).1,
          mkState tp (attempts tp (Z.to_nat n) ws p).2
            (h0 ++ [(attempts tp (Z.to_nat n) ws p).1])).
Proof using Hwords Hne.
  unfold rand_swap, Store.copy.
  rewrite !run_bind, (read_run _ _ _ _ ws) by done.
  unfold Store.new. cbn [heap tape pos].
  rewrite run_bind, swap_loop_run by done.
  by rewrite run_bind, (read_run _ _ _ _ _ (heap_last_lookup _ _)).
Qed.

End rand_swap_run.

(** ** Random deletion *)

Section rand_del_run.
Variables (tp : nat -> N) (h0 : list (list string)).
Variables (words : loc) (ws : list string).
Hypothesis Hwords : h0 !! words = Some ws.
Hypothesis Hne : ws <> [].

Lemma del_loop_run (prob : spec_float) (l : list string) p (r : list string) :
  for_each l (fun i =>
      u ← Random.uniform01;
      if Float.gtb u prob then Store.append (length h0) i else mret tt)
    (mkState tp p (h0 ++ [r]))
  = Some (tt, mkState tp (p + length l) (h0 ++ [r ++ kept_tokens tp p prob l])).
Proof using Type.
  revert p r. induction l as [|x l IH]; intros p r.
  - cbn [for_each kept_tokens length]. rewrite app_nil_r, Nat.add_0_r. done.
  - cbn [for_each kept_tokens length].
    rewrite !run_bind, uniform01_run.
    change (Float.gtb (Random.sample (tp p)) prob) with (keeps prob (tp p)).
    destruct (keeps prob (tp p)).
    + rewrite (append_run _ _ _ _ r) by apply heap_last_lookup.
      rewrite heap_last_insert, IH.
      by rewrite <- app_assoc, Nat.add_succ_r.
    + rewrite run_ret, IH. by rewrite Nat.add_succ_r.
Qed.

(** [rand_del] returns the tokens [deletion] retains; no object that
    existed before the call is written. *)
Lemma rand_del_run (prob : spec_float) p :
  rand_del words prob (mkState tp p h0)
  = Some (Py.join " " (deletion tp p prob ws).1,
          mkState tp (deletion tp p prob ws).2
            (h0 ++ [del_object ws (deletion tp p prob ws).1])).
Proof using Hwords Hne.
  unfold rand_del, del_object.
  rewrite run_bind. unfold Store.new at 1. cbn [heap tape pos].
  rewrite run_bind, (len_run _ _ _ _ ws) by (by apply heap_old_lookup).
  assert (Hpos : (0 < length ws)%nat) by (destruct ws; [done | cbn; lia]).
  destruct (decide (length ws = 1%nat)) as [E1|E1].
  - destruct ws as [|w [|w' ws']]; try done.
    change (Z.of_nat (length [w]) =? 1) with true. cbn iota.
    rewrite run_bind, run_ret.
    rewrite run_bind, (read_run _ _ _ _ [w]) by (by apply heap_old_lookup).
    done.
  - assert (En : (Z.of_nat (length ws) =? 1) = false) by (apply Z.eqb_neq; lia).
    rewrite En.
    rewrite !run_bind, (read_run _ _ _ _ ws) by (by apply heap_old_lookup).
    rewrite run_bind, del_loop_run. cbn [app].
    rewrite run_bind, (len_run _ _ _ _ _ (heap_last_lookup _ _)).
    assert (Hdel : deletion tp p prob ws
              = match kept_tokens tp p prob ws with
                | [] => (option_list (ws !! pick tp (p + length ws) (length ws)),
                         S (p + length ws))
                | kept => (kept, (p + length ws)%nat)
                end).
    { unfold deletion. destruct ws as [|w [|w' ws']]; done. }
    assert (Hobj : forall k : list string, match ws with [_] => [] | _ => k end = k).
    { intros k. destruct ws as [|w [|w' ws']]; done. }
    rewrite Hdel, Hobj.
    destruct (kept_tokens tp p prob ws) as [|k kept] eqn:Hk.
    + change (Z.of_nat (length (@nil string)) =? 0) with true.
      cbn iota. cbn [fst snd].
      rewrite !run_bind, (len_run _ _ _ _ ws) by (by apply heap_old_lookup).
      rewrite run_bind, randint_run by done.
      destruct (lookup_lt_is_Some_2 ws (pick tp (p + length ws) (length ws)))
        as [w Hw]; [by apply pick_lt|].
      rewrite run_bind, (getitem_run _ _ _ _ ws _ w)
        by (done || by apply heap_old_lookup).
      rewrite (append_run _ _ _ _ []) by apply heap_last_lookup.
      rewrite heap_last_insert, run_ret.
      rewrite run_bind, (read_run _ _ _ _ _ (heap_last_lookup _ _)).
      rewrite Hw. done.
    + assert (Em : (Z.of_nat (length (k :: kept)) =? 0) = false)
        by (apply Z.eqb_neq; cbn [length]; lia).
      rewrite Em. cbn [fst snd]. rewrite !run_bind, !run_ret.
      rewrite run_bind, (read_run _ _ _ _ _ (heap_last_lookup _ _)). done.
Qed.

End rand_del_run.

(** ** Floats: rounding a product *)

Lemma digits2_pos_bounds (p : positive) :
  2 ^ (Z.pos (digits2_pos p) - 1) <= Z.pos p < 2 ^ Z.pos (digits2_pos p).
Proof.
  induction p as [p IH|p IH|]; cbn [digits2_pos].
  - rewrite Pos2Z.inj_succ.
    replace (Z.succ (Z.pos (digits2_pos p)) - 1) with (Z.succ (Z.pos (digits2_pos p) - 1)) by lia.
    rewrite !Z.pow_succ_r by lia. lia.
  - rewrite Pos2Z.inj_succ.
    replace (Z.succ (Z.pos (digits2_pos p)) - 1) with (Z.succ (Z.pos (digits2_pos p) - 1)) by lia.
    rewrite !Z.pow_succ_r by lia. lia.
  - cbn. lia.
Qed.

Lemma Zdigits2_pos (z : Z) : 0 < z -> 0 < Zdigits2 z.
Proof. destruct z; cbn; lia. Qed.

Lemma Zdigits2_bounds (z : Z) :
  0 < z -> 2 ^ (Zdigits2 z - 1) <= z < 2 ^ Zdigits2 z.
Proof. destruct z as [|p|p]; try lia. intros _. apply digits2_pos_bounds. Qed.

Lemma Zdigits2_le (z D : Z) : 0 < z < 2 ^ D -> Zdigits2 z <= D.
Proof.
  intros [Hz HD]. pose proof (Zdigits2_bounds z Hz) as [Hl _].
  pose proof (Zdigits2_pos z Hz).
  assert (0 <= D).
  { destruct (Z.le_gt_cases 0 D) as [|Hneg]; [done|].
    rewrite Z.pow_neg_r in HD by lia. lia. }
  assert (Zdigits2 z - 1 < D); [|lia].
  apply (Z.pow_lt_mono_r_iff 2); lia.
Qed.

Lemma Zdigits2_ge (z D : Z) : 0 < z -> 2 ^ (D - 1) <= z -> D <= Zdigits2 z.
Proof.
  intros Hz HD. pose proof (Zdigits2_bounds z Hz) as [_ Hu].
  pose proof (Zdigits2_pos z Hz).
  destruct (Z.le_gt_cases D (Zdigits2 z)) as [|Hgt]; [done|].
  assert (2 ^ Zdigits2 z <= 2 ^ (D - 1)) by (apply Z.pow_le_mono_r; lia).
  lia.
Qed.

Lemma iter_pos_nat {A} (f : A -> A) (p : positive) (x : A) :
  SpecFloat.iter_pos f p x = Nat.iter (Pos.to_nat p) f x.
Proof.
  revert x. induction p as [p IH|p IH|]; intros x; cbn [SpecFloat.iter_pos].
  - rewrite !IH, Pos2Nat.inj_xI. cbn [Nat.mul].
    rewrite Nat.add_0_r. rewrite <- Nat.iter_add. by rewrite <- Nat.iter_succ_r.
  - rewrite !IH, Pos2Nat.inj_xO. cbn [Nat.mul].
    rewrite Nat.add_0_r. by rewrite <- Nat.iter_add.
  - reflexivity.
Qed.

Lemma shr_1_m (mrs : shr_record) :
  0 <= shr_m mrs -> shr_m (shr_1 mrs) = shr_m mrs / 2.
Proof.
  destruct mrs as [m r s]. cbn [shr_m shr_1]. intros Hm.
  destruct m as [|[p|p|]|p]; cbn [shr_m]; try lia.
  - reflexivity.
  - apply (Z.div_unique _ _ _ 1); lia.
  - apply (Z.div_unique _ _ _ 0); lia.
  - reflexivity.
Qed.

Lemma iter_shr_1_m (n : nat) (mrs : shr_record) :
  0 <= shr_m mrs ->
  shr_m (Nat.iter n shr_1 mrs) = shr_m mrs / 2 ^ Z.of_nat n.
Proof.
  intros Hm. induction n as [|n IH].
  - cbn. by rewrite Z.div_1_r.
  - rewrite Nat.iter_succ, shr_1_m.
    + rewrite IH, Nat2Z.inj_succ, Z.pow_succ_r by lia.
      rewrite Z.div_div by lia. f_equal. lia.
    + rewrite IH. apply Z.div_pos; lia.
Qed.

Lemma shr_spec (mrs : shr_record) (e n : Z) :
  0 <= shr_m mrs ->
  shr_m (shr mrs e n).1 = shr_m mrs / 2 ^ Z.max 0 n
  /\ (shr mrs e n).2 = e + Z.max 0 n.
Proof.
  intros Hm. destruct n as [|k|k]; cbn [shr fst snd].
  - rewrite Z.max_l by lia. cbn. rewrite Z.div_1_r. lia.
  - rewrite Z.max_r by lia. rewrite iter_pos_nat, iter_shr_1_m by done.
    by rewrite positive_nat_Z.
  - rewrite Z.max_l by lia. cbn. rewrite Z.div_1_r. lia.
Qed.

Lemma round_nearest_even_bounds (m : Z) (l : location) :
  m <= round_nearest_even m l <= m + 1.
Proof. destruct l as [|[]]; cbn; try destruct (Z.even m); lia. Qed.

Lemma fexp_normal (z : Z) : -1021 <= z -> fexp 53 1024 z = z - 53.
Proof. unfold fexp, emin. lia. Qed.

Lemma shr_record_of_loc_m (m : Z) (l : location) :
  shr_m (shr_record_of_loc m l) = m.
Proof. by destruct l as [|[]]. Qed.

Lemma shr_fexp_spec (m e : Z) (l : location) :
  0 < m -> -1021 <= Zdigits2 m + e ->
  shr_m (shr_fexp 53 1024 m e l).1 = m / 2 ^ Z.max 0 (Zdigits2 m - 53)
  /\ (shr_fexp 53 1024 m e l).2 = e + Z.max 0 (Zdigits2 m - 53).
Proof.
  intros Hm He. unfold shr_fexp. rewrite fexp_normal by done.
  replace (Zdigits2 m + e - 53 - e) with (Zdigits2 m - 53) by lia.
  pose proof (shr_spec (shr_record_of_loc m l) e (Zdigits2 m - 53)) as H.
  rewrite shr_record_of_loc_m in H. apply H. lia.
Qed.

Lemma shr_fexp_exact (m e : Z) :
  0 < m -> -1021 <= Zdigits2 m + e -> Zdigits2 m <= 53 ->
  shr_fexp 53 1024 m e loc_Exact = (Build_shr_record m false false, e).
Proof.
  intros Hm He Hd. unfold shr_fexp. rewrite fexp_normal by done.
  cbn [shr_record_of_loc]. unfold shr.
  destruct (Zdigits2 m + e - 53 - e) eqn:E; try done. lia.
Qed.

(** A mantissa of at most 53 bits is not rounded. *)
Lemma binary_round_aux_exact (sx : bool) (p : positive) (e : Z) :
  -1000 <= e <= 900 -> Zdigits2 (Z.pos p) <= 53 ->
  binary_round_aux 53 1024 sx (Z.pos p) e loc_Exact = S754_finite sx p e.
Proof.
  intros He Hd. unfold binary_round_aux.
  pose proof (Zdigits2_pos (Z.pos p) ltac:(lia)) as Hp.
  rewrite shr_fexp_exact by lia. cbn [shr_m loc_of_shr_record round_nearest_even].
  rewrite shr_fexp_exact by lia. cbn [shr_m].
  assert (E : (e <=? 1024 - 53) = true) by (apply Z.leb_le; lia).
  by rewrite E.
Qed.

(** Rounding a product: the result is finite, and its mantissa [m'] at the
    exponent [e'] is within one unit of the exact value. *)
Lemma binary_round_aux_sandwich (sx : bool) (p : positive) (e : Z) :
  -1000 <= e <= 900 -> e + Zdigits2 (Z.pos p) <= 900 ->
  exists m' e',
    binary_round_aux 53 1024 sx (Z.pos p) e loc_Exact = S754_finite sx m' e'
    /\ e <= e' <= e + Z.max 0 (Zdigits2 (Z.pos p) - 53) + 1
    /\ (Z.pos m' - 1) * 2 ^ (e' - e) <= Z.pos p
    /\ Z.pos p < (Z.pos m' + 1) * 2 ^ (e' - e).
Proof.
  intros He Hd. unfold binary_round_aux.
  set (d := Zdigits2 (Z.pos p)) in *.
  pose proof (Zdigits2_pos (Z.pos p) ltac:(lia)) as Hdp. fold d in Hdp.
  pose proof (Zdigits2_bounds (Z.pos p) ltac:(lia)) as [Hlo Hhi]. fold d in Hlo, Hhi.
  set (k1 := Z.max 0 (d - 53)).
  destruct (shr_fexp_spec (Z.pos p) e loc_Exact ltac:(lia) ltac:(lia)) as [Hm1 He1].
  fold d in Hm1, He1. fold k1 in Hm1, He1.
  destruct (shr_fexp 53 1024 (Z.pos p) e loc_Exact) as [mrs1 e1].
  cbn [fst snd] in Hm1, He1.
  set (m1 := shr_m mrs1) in *.
  pose proof (round_nearest_even_bounds m1 (loc_of_shr_record mrs1)) as Hm2.
  set (m2 := round_nearest_even m1 (loc_of_shr_record mrs1)) in *.
  assert (Hk1 : 0 <= k1) by lia.
  assert (Hpow1 : 0 < 2 ^ k1) by (apply Z.pow_pos_nonneg; lia).
  (* m1 is the quotient of p by 2^k1 *)
  assert (Hdiv : m1 * 2 ^ k1 <= Z.pos p < (m1 + 1) * 2 ^ k1).
  { rewrite Hm1. pose proof (Z.div_mod (Z.pos p) (2 ^ k1) ltac:(lia)).
    pose proof (Z.mod_pos_bound (Z.pos p) (2 ^ k1) ltac:(lia)). nia. }
  (* m1 has at most 53 bits, and 53 exactly when it was shifted *)
  assert (Hm1hi : m1 < 2 ^ 53).
  { destruct (Z.le_gt_cases d 53) as [Hd53|Hd53].
    - assert (k1 = 0) as Hk0 by lia. rewrite Hk0 in Hdiv.
      assert (2 ^ d <= 2 ^ 53) by (apply Z.pow_le_mono_r; lia). lia.
    - assert (k1 = d - 53) as Hk by lia.
      assert (2 ^ d = 2 ^ 53 * 2 ^ k1).
      { rewrite <- Z.pow_add_r by lia. f_equal. lia. }
      nia. }
  assert (Hm1lo : 0 < m1).
  { destruct (Z.le_gt_cases d 53) as [Hd53|Hd53].
    - assert (k1 = 0) as Hk0 by lia. rewrite Hk0 in Hdiv. lia.
    - assert (k1 = d - 53) as Hk by lia.
      assert (2 ^ (d - 1) = 2 ^ 52 * 2 ^ k1).
      { rewrite <- Z.pow_add_r by lia. f_equal. lia. }
      assert (2 ^ 52 < m1 + 1) by nia. lia. }
  assert (Hd2 : Zdigits2 m2 <= 54).
  { apply Zdigits2_le. split; [lia|].
    assert (2 ^ 54 = 2 * 2 ^ 53) by reflexivity. lia. }
  pose proof (Zdigits2_pos m2 ltac:(lia)) as Hd2p.
  set (k2 := Z.max 0 (Zdigits2 m2 - 53)).
  destruct (shr_fexp_spec m2 e1 loc_Exact ltac:(lia) ltac:(lia)) as [Hm3 He2].
  fold k2 in Hm3, He2.
  destruct (shr_fexp 53 1024 m2 e1 loc_Exact) as [mrs2 e2].
  cbn [fst snd] in Hm3, He2.
  assert (Hk2 : 0 <= k2 <= 1) by lia.
  assert (Hpow2 : 0 < 2 ^ k2) by (apply Z.pow_pos_nonneg; lia).
  assert (Hdiv2 : shr_m mrs2 * 2 ^ k2 <= m2 < (shr_m mrs2 + 1) * 2 ^ k2).
  { rewrite Hm3. pose proof (Z.div_mod m2 (2 ^ k2) ltac:(lia)).
    pose proof (Z.mod_pos_bound m2 (2 ^ k2) ltac:(lia)). nia. }
  assert (Hm3lo : 0 < shr_m mrs2).
  { destruct (Z.eq_dec k2 0) as [Hk0|Hk0].
    - rewrite Hk0 in Hdiv2. cbn in Hdiv2. lia.
    - assert (k2 = 1) as Hk by lia. assert (Zdigits2 m2 = 54) by lia.
      pose proof (Zdigits2_bounds m2 ltac:(lia)) as [Hl2 _].
      replace (Zdigits2 m2 - 1) with 53 in Hl2 by lia.
      rewrite Hk in Hdiv2. change (2 ^ 1) with 2 in Hdiv2.
      assert (2 ^ 53 = 9007199254740992) by reflexivity. lia. }
  destruct (shr_m mrs2) as [|m'|m'] eqn:Em3; try lia.
  assert (E : (e2 <=? 1024 - 53) = true) by (apply Z.leb_le; unfold k1 in *; lia).
  rewrite E. exists m', e2. split; [done|]. split; [unfold k1 in *; lia|].
  assert (Hj : e2 - e = k1 + k2) by lia. rewrite Hj.
  rewrite Z.pow_add_r by lia. split; nia.
Qed.

Lemma iter_xO_val (p c : positive) :
  Z.pos (Pos.iter xO p c) = Z.pos p * 2 ^ Z.pos c.
Proof.
  induction c as [|c IH] using Pos.peano_ind.
  - cbn. lia.
  - rewrite Pos.iter_succ, Pos2Z.inj_succ, Z.pow_succ_r by lia.
    rewrite Pos2Z.inj_xO, IH. lia.
Qed.

Lemma iter_xO_digits (p c : positive) :
  digits2_pos (Pos.iter xO p c) = (digits2_pos p + c)%positive.
Proof.
  induction c as [|c IH] using Pos.peano_ind.
  - cbn. lia.
  - rewrite Pos.iter_succ. cbn [digits2_pos]. rewrite IH. lia.
Qed.

(** The float of a positive integer of at most 53 bits is the integer. *)
Lemma of_Z_exact (n : Z) :
  0 < n -> Zdigits2 n <= 53 ->
  exists mz,
    Float.of_Z n = S754_finite false mz (Zdigits2 n - 53)
    /\ Z.pos mz = n * 2 ^ (53 - Zdigits2 n)
    /\ Zdigits2 (Z.pos mz) = 53.
Proof.
  intros Hn Hd. destruct n as [|p|p]; try lia.
  unfold Float.of_Z, Float.prec, Float.emax, binary_normalize, binary_round.
  cbn [Zdigits2] in *. set (d := Z.pos (digits2_pos p)) in *.
  rewrite fexp_normal by lia. unfold shl_align.
  destruct (d + 0 - 53 - 0) as [|c|c] eqn:E; try lia.
  - assert (d = 53) as Hd53 by lia.
    exists p. rewrite binary_round_aux_exact by (cbn [Zdigits2]; lia).
    rewrite Hd53. split; [done|]. split; [cbn; lia | cbn [Zdigits2]; by fold d].
  - exists (Pos.iter xO p c).
    assert (Hc : Z.pos c = 53 - d) by lia.
    assert (Hdig : Zdigits2 (Z.pos (Pos.iter xO p c)) = 53).
    { cbn [Zdigits2]. rewrite iter_xO_digits, Pos2Z.inj_add. fold d. lia. }
    rewrite binary_round_aux_exact by lia.
    split; [f_equal; lia|]. split; [|done].
    by rewrite iter_xO_val, Hc.
Qed.

(** [int(0.2 * n)] is the quotient of [n] by 5, as long as the product is
    far enough from the integers its rounding could reach. *)
Lemma mul_0_2_floor (n : Z) :
  0 <= n < length_bound ->
  Float.to_int (Float.mul Float.lit_0_2 (Float.of_Z n)) = Some (n / 5).
Proof.
  unfold length_bound. intros [Hn0 Hn]. destruct (Z.eq_dec n 0) as [->|Hnz]; [reflexivity|].
  assert (Hnpos : 0 < n) by lia.
  assert (Hd : Zdigits2 n <= 50) by (apply Zdigits2_le; lia).
  pose proof (Zdigits2_pos n Hnpos) as Hdp.
  destruct (of_Z_exact n Hnpos ltac:(lia)) as (mz & Hy & Hmz & Hdz).
  rewrite Hy. unfold Float.lit_0_2, Float.mul, Float.prec, Float.emax, SFmul.
  cbn [xorb].
  set (c := 53 - Zdigits2 n) in *.
  replace (Zdigits2 n - 53) with (- c) by lia.
  set (M0 := 7205759403792794%positive).
  assert (HM0 : 5 * Z.pos M0 = 2 ^ 55 + 2) by reflexivity.
  (* the product has at most 106 bits *)
  assert (Hpow_c : 0 < 2 ^ c) by (apply Z.pow_pos_nonneg; lia).
  assert (Hmz53 : Z.pos mz < 2 ^ 53).
  { pose proof (Zdigits2_bounds (Z.pos mz) ltac:(lia)) as [_ H]. by rewrite Hdz in H. }
  assert (Hdp2 : Zdigits2 (Z.pos (M0 * mz)) <= 106).
  { apply Zdigits2_le. split; [lia|]. rewrite Pos2Z.inj_mul.
    assert (Z.pos M0 < 2 ^ 53) by reflexivity.
    assert (2 ^ 106 = 2 ^ 53 * 2 ^ 53) by reflexivity. nia. }
  pose proof (Zdigits2_pos (Z.pos (M0 * mz)) ltac:(lia)) as Hdpp.
  destruct (binary_round_aux_sandwich false (M0 * mz) (-55 + - c))
    as (m' & e' & Hr & He' & Hlo & Hhi); [lia | lia |].
  rewrite Hr. cbn [Float.to_int].
  assert (He'neg : e' <= -4) by lia.
  assert (E : (0 <=? e') = false) by (apply Z.leb_gt; lia).
  rewrite E. f_equal.
  set (j := e' - (-55 + - c)) in *.
  set (t := - e').
  assert (Hjt : j + t = 55 + c) by lia.
  assert (Hj : 0 <= j) by lia. assert (Ht : 4 <= t) by lia.
  assert (HB : 0 < 2 ^ j) by (apply Z.pow_pos_nonneg; lia).
  assert (HT : 0 < 2 ^ t) by (apply Z.pow_pos_nonneg; lia).
  assert (HBT : 2 ^ j * 2 ^ t = 2 ^ 55 * 2 ^ c).
  { rewrite <- !Z.pow_add_r by lia. f_equal. lia. }
  assert (HT16 : 16 <= 2 ^ t).
  { change 16 with (2 ^ 4). apply Z.pow_le_mono_r; lia. }
  rewrite Pos2Z.inj_mul, Hmz in Hlo, Hhi.
  set (q := n / 5).
  assert (Hq : 5 * q <= n <= 5 * q + 4).
  { pose proof (Z.div_mod n 5 ltac:(lia)). pose proof (Z.mod_pos_bound n 5 ltac:(lia)).
    unfold q. lia. }
  assert (Hq0 : 0 <= q) by (apply Z.div_pos; lia).
  (* in units of 2^-(55+c): five times the product is n * (2^55 + 2) * 2^c *)
  set (A := 2 ^ c) in *. set (B := 2 ^ j) in *. set (T := 2 ^ t) in *.
  set (P := Z.pos M0 * (n * A)) in *.
  assert (HP5 : 5 * P = n * (2 ^ 55 + 2) * A) by (unfold P; nia).
  symmetry. apply (Z.div_unique_pos _ _ _ (Z.pos m' - q * T)); [|lia].
  split.
  - (* q * T <= m' *)
    destruct (Z.le_gt_cases (q * T) (Z.pos m')) as [|Hlt]; [lia|].
    assert ((Z.pos m' + 1) * B <= q * T * B) by nia.
    assert (q * T * B = q * (2 ^ 55 * A)) by nia.
    assert (5 * (q * (2 ^ 55 * A)) <= 5 * P) by nia.
    lia.
  - (* m' < (q + 1) * T *)
    destruct (Z.le_gt_cases ((q + 1) * T) (Z.pos m')) as [Hge|]; [|lia].
    assert (((q + 1) * T - 1) * B <= (Z.pos m' - 1) * B) by nia.
    assert (((q + 1) * T - 1) * B = (q + 1) * (2 ^ 55 * A) - B) by nia.
    assert (16 * B <= 2 ^ 55 * A) by nia.
    assert (2 ^ 55 = 32 * 2 ^ 50) by reflexivity.
    assert (5 * P <= (5 * q + 4) * (2 ^ 55 * A) + 2 * n * A) by nia.
    assert (2 * n * A < 2 * 2 ^ 50 * A) by nia.
    nia.
Qed.

(** ** The number of swap attempts *)

(** [int(0.2 * n)] truncates: it is the quotient of [n] by 5. *)
Lemma swap_count_small (n : Z) :
  0 <= n < length_bound ->
  swap_count n = Some (Z.max 1 (n / 5)).
Proof. intros Hn. unfold swap_count. by rewrite mul_0_2_floor. Qed.

(** The float of a length is finite. *)
Lemma of_Z_finite (n : Z) :
  0 < n < 2 ^ 64 ->
  exists m e,
    Float.of_Z n = S754_finite false m e /\ -52 <= e <= 12 /\ Z.pos m < 2 ^ 65.
Proof.
  intros [Hn0 Hn]. pose proof (Zdigits2_pos n Hn0) as Hdp.
  assert (Hd64 : Zdigits2 n <= 64) by (apply Zdigits2_le; lia).
  destruct (Z.le_gt_cases (Zdigits2 n) 53) as [Hd|Hd].
  - destruct (of_Z_exact n Hn0 Hd) as (mz & Hy & _ & Hdz).
    exists mz, (Zdigits2 n - 53). split; [done|]. split; [lia|].
    pose proof (Zdigits2_bounds (Z.pos mz) ltac:(lia)) as [_ H].
    rewrite Hdz in H. assert (2 ^ 53 < 2 ^ 65) by reflexivity. lia.
  - destruct n as [|p|p]; try lia.
    unfold Float.of_Z, Float.prec, Float.emax, binary_normalize, binary_round.
    cbn [Zdigits2] in *. set (d := Z.pos (digits2_pos p)) in *.
    rewrite fexp_normal by lia. unfold shl_align.
    destruct (d + 0 - 53 - 0) as [|c|c] eqn:E; try lia.
    destruct (binary_round_aux_sandwich false p 0)
      as (m' & e' & Hr & He' & Hlo & _); [lia | cbn [Zdigits2]; fold d; lia |].
    cbn [Zdigits2] in He'. fold d in He'.
    exists m', e'. split; [exact Hr|]. split; [lia|].
    assert (0 < 2 ^ (e' - 0)) by (apply Z.pow_pos_nonneg; lia).
    assert (2 ^ 65 = 2 * 2 ^ 64) by reflexivity. nia.
Qed.

(** [max(1, int(0.2 * n))] is defined for every length a list can have,
    and it is at least one. *)
Lemma swap_count_total (n : Z) :
  0 <= n <= Py.maxsize -> exists k, swap_count n = Some k /\ 1 <= k.
Proof.
  unfold Py.maxsize. intros [Hn0 Hn].
  destruct (Z.eq_dec n 0) as [->|Hnz]; [exists 1; split; [reflexivity | lia]|].
  assert (H64 : 2 ^ 63 - 1 < 2 ^ 64) by reflexivity.
  destruct (of_Z_finite n ltac:(lia)) as (m & e & Hy & He & Hm).
  unfold swap_count. rewrite Hy.
  unfold Float.lit_0_2, Float.mul, Float.prec, Float.emax, SFmul. cbn [xorb].
  set (M0 := 7205759403792794%positive).
  assert (Hd : Zdigits2 (Z.pos (M0 * m)) <= 118).
  { apply Zdigits2_le. split; [lia|]. rewrite Pos2Z.inj_mul.
    assert (Z.pos M0 < 2 ^ 53) by reflexivity.
    assert (2 ^ 118 = 2 ^ 53 * 2 ^ 65) by reflexivity. nia. }
  destruct (binary_round_aux_sandwich false (M0 * m) (-55 + e))
    as (m' & e' & Hr & _); [lia | lia |].
  rewrite Hr. cbn [Float.to_int]. eexists. split; [reflexivity|]. lia.
Qed.

(** Close to 2^53 the product is rounded up to the next integer. *)
Example swap_count_large :
  swap_count (2 ^ 53 - 3) = Some ((2 ^ 53 - 3) / 5 + 1).
Proof. vm_compute. reflexivity. Qed.

Example swap_count_8 : swap_count 8 = Some 1.
Proof. vm_compute. reflexivity. Qed.

Example spec_swap_count_8 : spec_swap_count 8 = 2.
Proof. vm_compute. reflexivity. Qed.

(** ** What random deletion retains *)

Lemma kept_tokens_elem tp p prob (ws : list string) (w : string) :
  w ∈ kept_tokens tp p prob ws -> w ∈ ws.
Proof.
  revert p. induction ws as [|x ws IH]; intros p; cbn [kept_tokens]; [done|].
  intros [H|H]%elem_of_app.
  - destruct (keeps prob (tp p)); [|by apply elem_of_nil in H].
    apply list_elem_of_singleton in H as ->. apply list_elem_of_here.
  - apply list_elem_of_further. by eapply IH.
Qed.

Lemma deletion_cases tp p prob (ws : list string) :
  length ws <> 1%nat ->
  deletion tp p prob ws
  = match kept_tokens tp p prob ws with
    | [] => (option_list (ws !! pick tp (p + length ws) (length ws)),
             S (p + length ws))
    | kept => (kept, (p + length ws)%nat)
    end.
Proof. intros H. unfold deletion. destruct ws as [|w [|w' ws']]; done. Qed.

Lemma deletion_nonempty tp p prob (ws : list string) :
  ws <> [] -> (deletion tp p prob ws).1 <> [].
Proof.
  intros Hne. destruct (decide (length ws = 1%nat)) as [E|E].
  - destruct ws as [|w [|w' ws']]; done.
  - rewrite deletion_cases by done.
    destruct (kept_tokens tp p prob ws) as [|k kept]; [|done].
    cbn [fst].
    destruct (lookup_lt_is_Some_2 ws (pick tp (p + length ws) (length ws)))
      as [w Hw]; [|by rewrite Hw].
    apply pick_lt. destruct ws; [done | cbn; lia].
Qed.

Lemma deletion_elem tp p prob (ws : list string) (w : string) :
  w ∈ (deletion tp p prob ws).1 -> w ∈ ws.
Proof.
  destruct (decide (length ws = 1%nat)) as [E|E].
  - destruct ws as [|x [|x' ws']]; done.
  - rewrite deletion_cases by done.
    destruct (kept_tokens tp p prob ws) as [|k kept] eqn:Hk.
    + cbn [fst].
      destruct (ws !! pick tp (p + length ws) (length ws)) as [x|] eqn:Hx;
        cbn [option_list]; [|by intros ?%elem_of_nil].
      intros ->%list_elem_of_singleton. by eapply list_elem_of_lookup_2.
    + cbn [fst]. rewrite <- Hk. apply kept_tokens_elem.
Qed.

Lemma join_nonempty (sep : string) (l : list string) :
  l <> [] -> Forall (fun w => w <> "") l -> Py.join sep l <> "".
Proof.
  destruct l as [|x l]; [done|]. intros _ [Hx _]%Forall_cons.
  destruct l as [|y l]; [done|].
  change (Py.join sep (x :: y :: l)) with (x +:+ sep +:+ Py.join sep (y :: l)).
  by intros [? _]%str_app_empty.
Qed.

(** ** The augmenter *)

Lemma rstrip_rstrip (ch : ascii) (s : string) :
  Py.rstrip ch (Py.rstrip ch s) = Py.rstrip ch s.
Proof.
  induction s as [|c s IH]; [done|]. cbn [Py.rstrip].
  destruct (Py.rstrip ch s) as [|d r] eqn:E.
  - destruct (Ascii.eqb c ch) eqn:Ec; [done|]. cbn [Py.rstrip]. by rewrite Ec.
  - cbn [Py.rstrip]. cbn [Py.rstrip] in IH. by rewrite IH.
Qed.

(** The text field strips the newlines once more, which changes nothing;
    the label has lost those at its end. *)
Lemma fromlist_run (txt lbl : string) tp p (h : list (list string)) :
  fromlist txt lbl (mkState tp p h)
  = Some (mkExample (length h) (Py.rstrip "010" lbl),
          mkState tp p (h ++ [PreProcessing.text_field_preprocess txt])).
Proof.
  unfold fromlist, PreProcessing.text_field_preprocess. by rewrite rstrip_rstrip.
Qed.

Section aug_run.
Variables (tp : nat -> N) (txt : loc) (ws : list string) (lbl : string) (k : Z).
Hypothesis Hne : ws <> [].
Hypothesis Hk : swap_count (Z.of_nat (length ws)) = Some k.

Lemma aug_round_run p (h : list (list string)) :
  h !! txt = Some ws ->
  aug_round txt lbl (mkState tp p h)
  = Some ([mkExample (length h + 2)%nat (Py.rstrip "010" lbl);
           mkExample (length h + 3)%nat (Py.rstrip "010" lbl)],
          mkState tp (round_swap tp ws k p).2 (round_heap tp ws k p h)).
Proof using Hne Hk.
  intros Htxt. unfold aug_round, round_heap, round_swap, round_del.
  rewrite run_bind, (rand_del_run _ _ _ ws) by done.
  rewrite run_bind, (len_run _ _ _ _ ws) by (by apply heap_old_lookup).
  rewrite Hk.
  rewrite run_bind, (rand_swap_run _ _ _ ws) by (done || by apply heap_old_lookup).
  rewrite run_bind, fromlist_run. rewrite run_bind, fromlist_run.
  rewrite run_ret. rewrite !length_app. cbn [length].
  rewrite <- !app_assoc. cbn [app].
  by rewrite <- !Nat.add_assoc.
Qed.

Lemma aug_sentence_run p (h : list (list string)) :
  h !! txt = Some ws ->
  aug_sentence txt lbl (mkState tp p h)
  = Some ([mkExample (length h + 2)%nat (Py.rstrip "010" lbl);
           mkExample (length h + 3)%nat (Py.rstrip "010" lbl);
           mkExample (length h + 6)%nat (Py.rstrip "010" lbl);
           mkExample (length h + 7)%nat (Py.rstrip "010" lbl)],
          mkState tp (round_swap tp ws k (round_swap tp ws k p).2).2
            (round_heap tp ws k (round_swap tp ws k p).2 (round_heap tp ws k p h))).
Proof using Hne Hk.
  intros Htxt. unfold aug_sentence. cbn [aug_rounds].
  rewrite run_bind, aug_round_run by done.
  assert (Htxt' : round_heap tp ws k p h !! txt = Some ws).
  { unfold round_heap. rewrite lookup_app_l; [done|]. by eapply lookup_lt_Some. }
  rewrite run_bind, aug_round_run by done.
  rewrite run_ret. unfold round_heap at 1 2. rewrite !length_app. cbn [length app].
  by rewrite <- !Nat.add_assoc.
Qed.

End aug_run.

(* ------------------------------------------------------------------ *)
(** * The claims of the specification *)

(** C3. For every non-empty token sequence, every probability and every
    sequence of random draws, [rand_del] returns, and what it returns
    is the join of a non-empty list of tokens of the input (a non-empty
    string when the tokens are non-empty strings).  When the pass keeps
    no token the result is the one token of the input the generator
    picks; when the input has exactly one token the result is that
    token, and no draw is made.  The input list is left as it was. *)
Theorem rand_del_never_empty (words : loc) (ws : list string)
    (prob : spec_float) (st : state) :
  heap st !! words = Some ws -> ws <> [] ->
  exists kept st',
    rand_del words prob st = Some (Py.join " " kept, st')
    /\ kept <> []
    /\ (forall w, w ∈ kept -> w ∈ ws)
    /\ (Forall (fun w => w <> "") ws -> Py.join " " kept <> "")
    /\ (length ws <> 1%nat ->
        kept_tokens (tape st) (pos st) prob ws <> [] ->
        kept = kept_tokens (tape st) (pos st) prob ws)
    /\ (length ws <> 1%nat ->
        kept_tokens (tape st) (pos st) prob ws = [] ->
        exists w,
          ws !! pick (tape st) (pos st + length ws) (length ws) = Some w
          /\ kept = [w])
    /\ (forall w, ws = [w] -> Py.join " " kept = w /\ pos st' = pos st)
    /\ heap st' !! words = Some ws.
Proof.
  destruct st as [tp p h]. cbn [heap tape pos]. intros Hw Hne.
  exists (deletion tp p prob ws).1. eexists.
  split; [by apply rand_del_run|].
  split; [by apply deletion_nonempty|].
  split; [apply deletion_elem|].
  split.
  { intros Hall. apply join_nonempty; [by apply deletion_nonempty|].
    apply Forall_forall. intros w Hin%deletion_elem.
    by eapply Forall_forall in Hall. }
  split.
  { intros H1 Hk. rewrite deletion_cases by done.
    by destruct (kept_tokens tp p prob ws). }
  split.
  { intros H1 Hk. rewrite deletion_cases by done. rewrite Hk. cbn [fst].
    destruct (lookup_lt_is_Some_2 ws (pick tp (p + length ws) (length ws)))
      as [w Hpick].
    - apply pick_lt. destruct ws; [done | cbn; lia].
    - exists w. by rewrite Hpick. }
  split; [by intros w -> |].
  cbn [heap]. by apply heap_old_lookup.
Qed.

Lemma rand_del_never_empty_witness :
  exists kept st',
    rand_del 0%nat Float.lit_0_3 (mkState (fun _ => 5%N) 0 [["good"; "movie"]])
    = Some (Py.join " " kept, st')
    /\ kept <> [].
Proof.
  destruct (rand_del_never_empty 0%nat ["good"; "movie"] Float.lit_0_3
              (mkState (fun _ => 5%N) 0 [["good"; "movie"]]))
    as (kept & st' & Hrun & Hne & _); [reflexivity | discriminate |].
  exists kept, st'. split; assumption.
Defined.

(** C4. For every non-empty token sequence, every number of attempts and
    every sequence of random draws, [rand_swap] returns the join of a
    permutation of the input tokens, of the same length (so the tokens
    read back from the returned string are a permutation of the input);
    the input list, and every list that existed before the call, is left
    as it was. *)
Theorem rand_swap_permutation (words : loc) (ws : list string) (n : Z)
    (st : state) :
  heap st !! words = Some ws -> ws <> [] ->
  exists res st',
    rand_swap words n st = Some (Py.join " " res, st')
    /\ res ≡ₚ ws
    /\ length res = length ws
    /\ heap st' !! words = Some ws
    /\ heap st `prefix_of` heap st'
    /\ (Forall wf_token ws ->
        PreProcessing.tokenizer (Py.join " " res) ≡ₚ ws).
Proof.
  destruct st as [tp p h]. cbn [heap tape pos]. intros Hw Hne.
  destruct (attempts_perm tp (Z.to_nat n) ws p) as [Hperm Hlen].
  exists (attempts tp (Z.to_nat n) ws p).1. eexists.
  split; [by apply rand_swap_run|].
  split; [done|]. split; [done|].
  split; [cbn [heap]; by apply heap_old_lookup|].
  split; [cbn [heap]; by apply prefix_app_r|].
  intros Hwf. rewrite tokenizer_join; [done|]. by rewrite Hperm.
Qed.

Lemma rand_swap_permutation_witness :
  exists res st',
    rand_swap 0%nat 2 (mkState (fun i => N.of_nat i) 0 [["a"; "b"; "c"]])
    = Some (Py.join " " res, st')
    /\ res ≡ₚ ["a"; "b"; "c"].
Proof.
  destruct (rand_swap_permutation 0%nat ["a"; "b"; "c"] 2
              (mkState (fun i => N.of_nat i) 0 [["a"; "b"; "c"]]))
    as (res & st' & Hrun & Hperm & _); [reflexivity | discriminate |].
  exists res, st'. split; assumption.
Defined.

Lemma heap_new_lookup (h l : list (list string)) (i : nat) :
  (h ++ l) !! (length h + i)%nat = l !! i.
Proof. rewrite lookup_app_r by lia. f_equal. lia. Qed.

(** C2, as stated, on the empty token sequence: [rand_del] asks the
    generator for an index of an empty range, and [aug_sentence] returns
    no example. *)
Lemma aug_sentence_empty_raises :
  ~ exists exs st',
      aug_sentence 0%nat "pos" (mkState (fun _ => 0%N) 0 [[]]) = Some (exs, st').
Proof. intros (exs & st' & H). vm_compute in H. discriminate H. Qed.

(** On a label that ends with a newline: [fromlist] removes the newline,
    and the four examples carry the label without it. *)
Example aug_sentence_strips_label :
  exists exs st',
    aug_sentence 0%nat (String "p" (String "010" ""))
      (mkState (fun i => N.of_nat i) 0 [["good"; "movie"]])
    = Some (exs, st')
    /\ map label exs = ["p"; "p"; "p"; "p"].
Proof. eexists _, _. split; vm_compute; reflexivity. Qed.

(** C2, amended. For every example whose token sequence is non-empty (of
    any length a list can have), [aug_sentence] returns exactly four
    examples, all with the label of the input without the newlines at
    its end, which is the label of the input when it does not end with a
    newline: the first and the third hold the tokens of the strings two
    calls of [rand_del] return, the second and the fourth those of two
    calls of [rand_swap], the calls being made in this order on the
    successive states. *)
Theorem aug_sentence_four_examples (txt : loc) (ws : list string)
    (lbl : string) (st : state) :
  heap st !! txt = Some ws -> ws <> [] ->
  Z.of_nat (length ws) <= Py.maxsize ->
  exists e1 e2 e3 e4 st',
    aug_sentence txt lbl st = Some ([e1; e2; e3; e4], st')
    /\ length [e1; e2; e3; e4] = 4%nat
    /\ Forall (fun e => label e = Py.rstrip "010" lbl) [e1; e2; e3; e4]
    /\ (Py.rstrip "010" lbl = lbl ->
        Forall (fun e => label e = lbl) [e1; e2; e3; e4])
    /\ exists k rd1 sa rs1 sb sb' sc rd2 sd rs2 se se',
         swap_count (Z.of_nat (length ws)) = Some k
         /\ rand_del txt Float.lit_0_3 st = Some (rd1, sa)
         /\ rand_swap txt k sa = Some (rs1, sb)
         /\ fromlist rd1 lbl sb = Some (e1, sb')
         /\ fromlist rs1 lbl sb' = Some (e2, sc)
         /\ rand_del txt Float.lit_0_3 sc = Some (rd2, sd)
         /\ rand_swap txt k sd = Some (rs2, se)
         /\ fromlist rd2 lbl se = Some (e3, se')
         /\ fromlist rs2 lbl se' = Some (e4, st')
         /\ heap st' !! text e1 = Some (PreProcessing.text_field_preprocess rd1)
         /\ heap st' !! text e2 = Some (PreProcessing.text_field_preprocess rs1)
         /\ heap st' !! text e3 = Some (PreProcessing.text_field_preprocess rd2)
         /\ heap st' !! text e4 = Some (PreProcessing.text_field_preprocess rs2).
Proof.
  destruct st as [tp p h]. cbn [heap tape pos]. intros Hw Hne Hlen.
  destruct (swap_count_total (Z.of_nat (length ws)) ltac:(lia)) as (k & Hk & _).
  set (d1 := round_del tp ws p).
  set (s1 := round_swap tp ws k p).
  set (h1 := round_heap tp ws k p h).
  set (d2 := round_del tp ws s1.2).
  set (s2 := round_swap tp ws k s1.2).
  set (h2 := round_heap tp ws k s1.2 h1).
  assert (Hw1 : h1 !! txt = Some ws).
  { unfold h1, round_heap. rewrite lookup_app_l; [done|]. by eapply lookup_lt_Some. }
  assert (Hh1 : h1 = ((h ++ [del_object ws d1.1]) ++ [s1.1])
                 ++ [PreProcessing.text_field_preprocess (Py.join " " d1.1)]
                 ++ [PreProcessing.text_field_preprocess (Py.join " " s1.1)]).
  { unfold h1, round_heap. by rewrite <- !app_assoc. }
  assert (Hh2 : h2 = ((h1 ++ [del_object ws d2.1]) ++ [s2.1])
                 ++ [PreProcessing.text_field_preprocess (Py.join " " d2.1)]
                 ++ [PreProcessing.text_field_preprocess (Py.join " " s2.1)]).
  { unfold h2, round_heap. by rewrite <- !app_assoc. }
  assert (Hl1 : length h1 = (length h + 4)%nat).
  { unfold h1, round_heap. rewrite length_app. done. }
  exists (mkExample (length h + 2)%nat (Py.rstrip "010" lbl)),
         (mkExample (length h + 3)%nat (Py.rstrip "010" lbl)),
         (mkExample (length h + 6)%nat (Py.rstrip "010" lbl)),
         (mkExample (length h + 7)%nat (Py.rstrip "010" lbl)),
         (mkState tp s2.2 h2).
  split; [by apply aug_sentence_run|].
  split; [done|].
  split; [by repeat constructor|].
  split; [intros ->; by repeat constructor|].
  exists k, (Py.join " " d1.1), (mkState tp d1.2 (h ++ [del_object ws d1.1])),
         (Py.join " " s1.1),
         (mkState tp s1.2 ((h ++ [del_object ws d1.1]) ++ [s1.1])),
         (mkState tp s1.2 (((h ++ [del_object ws d1.1]) ++ [s1.1])
            ++ [PreProcessing.text_field_preprocess (Py.join " " d1.1)])),
         (mkState tp s1.2 h1),
         (Py.join " " d2.1), (mkState tp d2.2 (h1 ++ [del_object ws d2.1])),
         (Py.join " " s2.1),
         (mkState tp s2.2 ((h1 ++ [del_object ws d2.1]) ++ [s2.1])),
         (mkState tp s2.2 (((h1 ++ [del_object ws d2.1]) ++ [s2.1])
            ++ [PreProcessing.text_field_preprocess (Py.join " " d2.1)])).
  split; [done|].
  split; [by apply rand_del_run|].
  split; [apply rand_swap_run; [by apply heap_old_lookup | done]|].
  split.
  { rewrite fromlist_run. rewrite !length_app. cbn [length].
    by rewrite <- !Nat.add_assoc. }
  split.
  { rewrite fromlist_run. rewrite !length_app. cbn [length].
    rewrite <- !Nat.add_assoc. cbn [Nat.add]. rewrite Hh1.
    by rewrite <- !app_assoc. }
  split; [by apply rand_del_run|].
  split; [apply rand_swap_run; [by apply heap_old_lookup | done]|].
  split.
  { rewrite fromlist_run. rewrite !length_app, Hl1. cbn [length].
    by rewrite <- !Nat.add_assoc. }
  split.
  { rewrite fromlist_run. rewrite !length_app, Hl1. cbn [length].
    rewrite <- !Nat.add_assoc. cbn [Nat.add]. rewrite Hh2.
    by rewrite <- !app_assoc. }
  cbn [heap text].
  assert (Hpre : forall i x, (i < 4)%nat ->
            h1 !! (length h + i)%nat = Some x ->
            h2 !! (length h + i)%nat = Some x).
  { intros i x Hi Hx. unfold h2, round_heap. rewrite lookup_app_l; [done|]. lia. }
  split; [apply (Hpre 2%nat); [lia|]; unfold h1, round_heap; by rewrite heap_new_lookup|].
  split; [apply (Hpre 3%nat); [lia|]; unfold h1, round_heap; by rewrite heap_new_lookup|].
  split.
  - unfold h2, round_heap.
    replace (length h + 6)%nat with (length h1 + 2)%nat by lia.
    by rewrite heap_new_lookup.
  - unfold h2, round_heap.
    replace (length h + 7)%nat with (length h1 + 3)%nat by lia.
    by rewrite heap_new_lookup.
Qed.

Lemma aug_sentence_four_examples_witness :
  exists e1 e2 e3 e4 st',
    aug_sentence 0%nat "pos" (mkState (fun i => N.of_nat i) 0 [["good"; "movie"]])
    = Some ([e1; e2; e3; e4], st')
    /\ Forall (fun e => label e = "pos") [e1; e2; e3; e4].
Proof.
  destruct (aug_sentence_four_examples 0%nat ["good"; "movie"] "pos"
              (mkState (fun i => N.of_nat i) 0 [["good"; "movie"]]))
    as (e1 & e2 & e3 & e4 & st' & Hrun & _ & _ & Hlbl & _);
    [reflexivity | discriminate | unfold Py.maxsize; cbn; lia |].
  exists e1, e2, e3, e4, st'. split; [assumption | by apply Hlbl].
Defined.

(** C5, as stated: on a sequence of 8 tokens [int(0.2 * 8)] is 1, so the
    augmenter asks for one attempt, where rounding gives two. *)
Lemma swap_count_not_rounded : swap_count 8 <> Some (spec_swap_count 8).
Proof. vm_compute. discriminate. Qed.

(** C5, amended. When the augmenter calls [rand_swap] on a sequence of
    [L] tokens ([0 < L < length_bound]) the number of attempts it
    asks for is [max(1, int(0.2 * L))], the quotient of [L] by 5 when
    this is positive: the swapped example of a round holds the tokens
    that exactly this number of attempts leave.  An attempt draws a
    first index, then up to three candidates; it exchanges the two
    positions at the first candidate that differs from the first index
    and changes nothing when all three are equal to it. *)
Theorem aug_swap_attempts (txt : loc) (ws : list string) (lbl : string)
    (st : state) :
  heap st !! txt = Some ws -> ws <> [] ->
  Z.of_nat (length ws) < length_bound ->
  let tp := tape st in
  let n := Z.max 1 (Z.of_nat (length ws) / 5) in
  swap_count (Z.of_nat (length ws)) = Some n
  /\ (forall st1,
        tape st1 = tp -> heap st1 !! txt = Some ws ->
        exists st2,
          rand_swap txt n st1
          = Some (Py.join " " (attempts tp (Z.to_nat n) ws (pos st1)).1, st2)
          /\ pos st2 = (attempts tp (Z.to_nat n) ws (pos st1)).2)
  /\ (exists rd_example rs_example st',
        aug_round txt lbl st = Some ([rd_example; rs_example], st')
        /\ heap st' !! text rs_example
           = Some (PreProcessing.text_field_preprocess
                     (Py.join " "
                        (attempts tp (Z.to_nat n) ws
                           (deletion tp (pos st) Float.lit_0_3 ws).2).1)))
  /\ (forall (l : list string) (p : nat),
        let r1 := pick tp p (length l) in
        let c1 := pick tp (p + 1) (length l) in
        let c2 := pick tp (p + 2) (length l) in
        let c3 := pick tp (p + 3) (length l) in
        attempt tp (l, p)
        = if decide (r1 = c1) then
            if decide (r1 = c2) then
              if decide (r1 = c3) then (l, (p + 4)%nat)
              else (swap_list l r1 c3, (p + 4)%nat)
            else (swap_list l r1 c2, (p + 3)%nat)
          else (swap_list l r1 c1, (p + 2)%nat)).
Proof.
  destruct st as [tp p h]. cbn [heap tape pos]. intros Hw Hne Hlen.
  cbn zeta.
  assert (Hk : swap_count (Z.of_nat (length ws))
               = Some (Z.max 1 (Z.of_nat (length ws) / 5)))
    by (apply swap_count_small; lia).
  split; [done|]. split.
  { intros [tp1 p1 h1]. cbn [heap tape pos]. intros -> Hw1.
    eexists. split; [by apply rand_swap_run|]. done. }
  split.
  { eexists _, _, _. split; [by eapply aug_round_run|].
    cbn [heap text]. unfold round_heap. by rewrite heap_new_lookup. }
  intros l q. unfold attempt. cbn [fst snd try_candidates].
  replace (q + 1)%nat with (S q) by lia.
  replace (q + 2)%nat with (S (S q)) by lia.
  replace (q + 3)%nat with (S (S (S q))) by lia.
  replace (q + 4)%nat with (S (S (S (S q)))) by lia.
  repeat case_decide; reflexivity.
Qed.

Lemma aug_swap_attempts_witness :
  swap_count (Z.of_nat (length ["a"; "b"; "c"; "d"; "e"; "f"; "g"; "h"]))
  = Some (Z.max 1 (Z.of_nat (length ["a"; "b"; "c"; "d"; "e"; "f"; "g"; "h"]) / 5)).
Proof.
  exact (proj1 (aug_swap_attempts 0%nat ["a"; "b"; "c"; "d"; "e"; "f"; "g"; "h"]
                  "pos"
                  (mkState (fun i => N.of_nat i) 0
                     [["a"; "b"; "c"; "d"; "e"; "f"; "g"; "h"]])
                  eq_refl ltac:(discriminate) eq_refl)).
Defined.

(** ** The line-break tag *)

(** An occurrence of the tag cannot start before the end of [x] and go
    on into a tag that follows [x]: the tag has "<" at its first
    position only. *)
Lemma prefix_tag_app (c : ascii) (x rest : string) :
  String.prefix "<br />" (String c x +:+ "<br />" +:+ rest)
  = String.prefix "<br />" (String c x).
Proof.
  destruct x as [|c2 [|c3 [|c4 [|c5 [|c6 x]]]]];
    repeat (rewrite str_app_cons || rewrite str_app_nil_l);
    cbn -[ascii_dec];
    repeat (match goal with
            | |- context [ascii_dec ?a ?b] => destruct (ascii_dec a b)
            end; try done; try (subst; done)).
  by destruct x.
Qed.

Lemma prefix_tag_length (s : string) :
  String.prefix "<br />" s = true -> (6 <= String.length s)%nat.
Proof.
  destruct s as [|c1 [|c2 [|c3 [|c4 [|c5 [|c6 x]]]]]];
    cbn -[ascii_dec];
    repeat (match goal with
            | |- context [ascii_dec ?a ?b] => destruct (ascii_dec a b)
            end; try done); intros H; [discriminate H | lia].
Qed.

Lemma replace_tag_app (a b : string) (skip : nat) :
  (skip <= String.length a)%nat ->
  Py.replace_from "<br />" " " skip (a +:+ "<br />" +:+ b)
  = Py.replace_from "<br />" " " skip a +:+ " " +:+ Py.replace "<br />" " " b.
Proof.
  revert skip. induction a as [|c a IH]; intros skip Hskip.
  - cbn in Hskip. assert (skip = 0%nat) as -> by lia. by destruct b.
  - rewrite str_app_cons. destruct skip as [|k].
    + cbn [Py.replace_from].
      rewrite <- (str_app_cons c a), prefix_tag_app.
      destruct (String.prefix "<br />" (String c a)) eqn:Hp.
      * apply prefix_tag_length in Hp. cbn [String.length] in Hp.
        rewrite IH by (cbn; lia). reflexivity.
      * rewrite IH by lia. reflexivity.
    + cbn [Py.replace_from]. apply IH. cbn [String.length] in Hskip. lia.
Qed.

Lemma join_empty_cons (x : string) (l : list string) :
  Py.join "" (x :: l) = x +:+ Py.join "" l.
Proof. destruct l; [by rewrite str_app_nil_r | reflexivity]. Qed.

Lemma blank_app (s1 s2 : string) :
  Py.join "" (PreProcessing.blank_non_alnum (s1 +:+ s2))
  = Py.join "" (PreProcessing.blank_non_alnum s1)
    +:+ Py.join "" (PreProcessing.blank_non_alnum s2).
Proof.
  unfold PreProcessing.blank_non_alnum.
  induction s1 as [|c s1 IH]; [reflexivity|].
  rewrite str_app_cons. cbn [list_ascii_of_string map].
  rewrite !join_empty_cons, IH. by rewrite str_app_assoc.
Qed.

Lemma split_from_space (x y cur : string) :
  Py.split_from cur (x +:+ String " " y)
  = Py.split_from cur x ++ Py.split_from "" y.
Proof.
  revert cur. induction x as [|c x IH]; intros cur; [reflexivity|].
  rewrite str_app_cons. cbn [Py.split_from].
  destruct (Py.isspace c); [|apply IH].
  by rewrite IH, app_assoc.
Qed.

(** A line-break tag separates tokens like a space: the tokens of a text
    around a tag are those of the part before it, then those of the
    part after it. *)
Lemma tokenizer_tag (a b : string) :
  PreProcessing.tokenizer (a +:+ "<br />" +:+ b)
  = PreProcessing.tokenizer a ++ PreProcessing.tokenizer b.
Proof.
  unfold PreProcessing.tokenizer, Py.replace, Py.split.
  rewrite replace_tag_app by lia.
  rewrite !blank_app.
  change (Py.join "" (PreProcessing.blank_non_alnum " ")) with " ".
  apply split_from_space.
Qed.

(** C6. For every input string the tokenizer replaces the tag "<br />"
    by a space, then every character that is not alphanumeric by a
    space, then splits on whitespace: its tokens are non-empty and
    alphanumeric, a tag separates tokens, and tokens joined by spaces
    are given back as they are, their case unchanged.  On the empty
    string the result is empty; "<br />Good! Movie--" gives "Good" and
    "Movie", which the field of the vocabulary turns into "good" and
    "movie". *)
Theorem tokenizer_pipeline :
  (forall txt,
      PreProcessing.tokenizer txt
      = Py.split (Py.join ""
                    (PreProcessing.blank_non_alnum (Py.replace "<br />" " " txt))))
  /\ (forall txt, Forall wf_token (PreProcessing.tokenizer txt))
  /\ (forall a b,
        PreProcessing.tokenizer (a +:+ "<br />" +:+ b)
        = PreProcessing.tokenizer a ++ PreProcessing.tokenizer b)
  /\ (forall toks,
        Forall wf_token toks ->
        PreProcessing.tokenizer (Py.join " " toks) = toks)
  /\ PreProcessing.tokenizer "" = []
  /\ PreProcessing.tokenizer "<br />Good! Movie--" = ["Good"; "Movie"]
  /\ PreProcessing.text_field_preprocess "<br />Good! Movie--" = ["good"; "movie"].
Proof.
  split; [reflexivity|].
  split; [apply tokenizer_tokens|].
  split; [apply tokenizer_tag|].
  split; [apply tokenizer_join|].
  repeat split; vm_compute; reflexivity.
Qed.

Lemma tokenizer_pipeline_witness :
  PreProcessing.tokenizer (Py.join " " ["Good"; "Movie"]) = ["Good"; "Movie"].
Proof.
  apply (proj1 (proj2 (proj2 (proj2 tokenizer_pipeline)))).
  repeat constructor; vm_compute; congruence.
Defined.

(** ** The network *)

Lemma view_last_length {scalar} (batchSize : nat) (data out : list scalar) :
  Network.view_last batchSize data = Some out -> length out = batchSize.
Proof.
  unfold Network.view_last. destruct (batchSize =? 0)%nat; [done|].
  destruct (_ && _); [|done].
  intros H%length_mapM. by rewrite <- H, length_seq.
Qed.

(** A forward pass that returns gives one value per example of the batch. *)
Lemma forward_length {scalar G} (self : Network.t scalar G)
    (input : Network.tensor3 scalar) (lengths : list Z) (g g' : G)
    (out : list scalar) :
  Network.forward self input lengths g = Some (out, g') ->
  length out = length input.
Proof.
  unfold Network.forward.
  destruct (Network.lstm self input g) as [[lstm_out [hn cn]] g1].
  destruct (Network.from_end hn 2) as [fwd|]; [|done]. cbn.
  destruct (Network.from_end hn 1) as [bwd|]; [|done]. cbn.
  destruct (Network.cat1 fwd bwd) as [joined|]; [|done]. cbn.
  destruct (Network.dropout self joined g1) as [hidden g2].
  destruct (Network.view_last _ _) as [o|] eqn:Hv; [|done]. cbn.
  intros [= <- <-]. by eapply view_last_length.
Qed.

(** C9. [forward] never reads its [length] argument: for every network,
    every batch and every state of the generator the result is the same
    for any two values of it.  The encoder is applied to the whole padded
    input, and the result is a function of what the encoder returns for
    it, of the dropout layer and of the linear head only. *)
Theorem forward_ignores_length {scalar G : Type} :
  (forall (self : Network.t scalar G) (input : Network.tensor3 scalar)
          (length1 length2 : list Z) (g : G),
      Network.forward self input length1 g = Network.forward self input length2 g)
  /\ (forall (self self' : Network.t scalar G)
             (input input' : Network.tensor3 scalar)
             (length1 length2 : list Z) (g g' : G),
        Network.lstm self input g = Network.lstm self' input' g' ->
        Network.dropout self = Network.dropout self' ->
        Network.fc self = Network.fc self' ->
        length input = length input' ->
        Network.forward self input length1 g
        = Network.forward self' input' length2 g').
Proof.
  split; [reflexivity|].
  intros self self' input input' l1 l2 g g' Hlstm Hdrop Hfc Hlen.
  unfold Network.forward. rewrite Hlstm, Hdrop, Hfc, Hlen. reflexivity.
Qed.

(** ** Evaluation *)

Lemma tensor_eq_same {A B} (eqb : A -> B -> bool) (a : list A) (b : list B) :
  length a = length b -> tensor_eq eqb a b = Some (zip_with eqb a b).
Proof. intros H. unfold tensor_eq. by rewrite H, Nat.eqb_refl. Qed.

Lemma count_true_le (l : list bool) :
  (count_occ bool_dec l true <= length l)%nat.
Proof. apply count_occ_bound. Qed.

Lemma accuracy_range (n len : Z) :
  0 <= n <= len -> 0 < len ->
  (0 <= inject_Z (100 * n) / inject_Z len)%Q
  /\ (inject_Z (100 * n) / inject_Z len <= 100)%Q.
Proof.
  intros Hn Hlen. destruct len as [|q|q]; try lia.
  unfold Qdiv, Qinv, Qmult, Qle, inject_Z. cbn. split; lia.
Qed.

Section Main_properties.
Variables (scalar G Loss Opt : Type).
Variable embed : list (list string) -> list Example -> Network.tensor3 scalar * list Z.
Variable label_id : string -> Z.
Variable criterion : list scalar -> list Z -> Loss.
Variable update : Opt -> Main.Net scalar G -> Loss -> Opt * Main.Net scalar G.
Variable sigmoid : scalar -> option Q.
Variable bucket_iterator : list Example -> list (list Example).

Lemma shift_raw_labels (batch : list Example) :
  Main.shift_labels (Main.raw_labels label_id batch) = Main.targets label_id batch.
Proof using Type. unfold Main.shift_labels, Main.raw_labels, Main.targets. by rewrite map_map. Qed.

Lemma eval_batch_unfold (h : list (list string)) (net : Main.Net scalar G)
    (g : G) (batch : list Example) :
  Main.eval_batch embed label_id sigmoid h net g batch
  = match Network.forward net (embed h batch).1 (embed h batch).2 g with
    | Some (out, g') =>
        match tensor_eq label_eqb (Main.targets label_id batch) (Main.predictions sigmoid out) with
        | Some eq => Some (Z.of_nat (count_occ bool_dec eq true), g')
        | None => None
        end
    | None => None
    end.
Proof using Type.
  unfold Main.eval_batch. destruct (embed h batch) as [inputs lengths].
  rewrite shift_raw_labels. cbn [fst snd].
  destruct (Network.forward net inputs lengths g) as [[out g']|]; [|done].
  cbn. unfold Main.predictions. rewrite map_map. reflexivity.
Qed.

(** One row of the embedded batch per example, as the batcher builds it. *)
Hypothesis embed_rows : forall h batch, length (embed h batch).1 = length batch.

(** A pass of the iterator yields every example of the dataset once. *)
Hypothesis bucket_iterator_perm : forall exs, concat (bucket_iterator exs) ≡ₚ exs.

Lemma eval_batch_run (h : list (list string)) (net : Main.Net scalar G)
    (g : G) (batch : list Example) :
  is_Some (Network.forward net (embed h batch).1 (embed h batch).2 g) ->
  exists c g',
    Main.eval_batch embed label_id sigmoid h net g batch = Some (c, g')
    /\ 0 <= c <= Z.of_nat (length batch).
Proof using embed_rows.
  intros [[out g'] Hf]. rewrite eval_batch_unfold, Hf.
  pose proof (forward_length _ _ _ _ _ _ Hf) as Hout.
  rewrite embed_rows in Hout.
  assert (Ht : length (Main.targets label_id batch) = length batch)
    by (unfold Main.targets; by rewrite length_map).
  assert (Hp : length (Main.predictions sigmoid out) = length out)
    by (unfold Main.predictions; by rewrite length_map).
  rewrite tensor_eq_same by congruence.
  eexists _, _. split; [reflexivity|].
  pose proof (count_true_le
                (zip_with label_eqb (Main.targets label_id batch)
                   (Main.predictions sigmoid out))) as Hc.
  rewrite length_zip_with_l_eq in Hc by congruence.
  rewrite Ht in Hc. lia.
Qed.

Lemma eval_loop_run (h : list (list string)) (net : Main.Net scalar G)
    (batches : list (list Example)) (g : G) (acc : Z) :
  (forall batch g, batch ∈ batches ->
     is_Some (Network.forward net (embed h batch).1 (embed h batch).2 g)) ->
  exists n g',
    Main.eval_loop embed label_id sigmoid h net g acc batches = Some (n, g')
    /\ acc <= n <= acc + Z.of_nat (length (concat batches)).
Proof using embed_rows.
  revert g acc. induction batches as [|batch rest IH]; intros g acc Hnet.
  - exists acc, g. split; [done|]. cbn. lia.
  - destruct (eval_batch_run h net g batch) as (c & g1 & Hb & Hc).
    { apply Hnet. apply list_elem_of_here. }
    destruct (IH g1 (acc + c)) as (n & g' & Hl & Hn).
    { intros b g0 Hin. apply Hnet. by apply list_elem_of_further. }
    exists n, g'. cbn [Main.eval_loop]. rewrite Hb. cbn. split; [done|].
    cbn [concat]. rewrite length_app. lia.
Qed.

Lemma eval_batch_count (h : list (list string)) (net : Main.Net scalar G)
    (g : G) (batch : list Example) :
  is_Some (Network.forward net (embed h batch).1 (embed h batch).2 g) ->
  exists out g',
    Network.forward net (embed h batch).1 (embed h batch).2 g = Some (out, g')
    /\ length out = length batch
    /\ Main.eval_batch embed label_id sigmoid h net g batch
       = Some (Z.of_nat (count_occ bool_dec
                           (zip_with label_eqb (Main.targets label_id batch)
                              (Main.predictions sigmoid out)) true), g').
Proof using embed_rows.
  intros [[out g'] Hf]. exists out, g'. split; [done|].
  pose proof (forward_length _ _ _ _ _ _ Hf) as Hout.
  rewrite embed_rows in Hout. split; [done|].
  rewrite eval_batch_unfold, Hf.
  assert (Ht : length (Main.targets label_id batch) = length batch)
    by (unfold Main.targets; by rewrite length_map).
  assert (Hp : length (Main.predictions sigmoid out) = length out)
    by (unfold Main.predictions; by rewrite length_map).
  by rewrite tensor_eq_same by congruence.
Qed.

(** The loop adds the count of every batch to its counter. *)
Lemma eval_loop_counts (h : list (list string)) (net : Main.Net scalar G)
    (batches : list (list Example)) :
  forall (g : G) (acc : Z),
    Main.eval_loop embed label_id sigmoid h net g acc batches
    = match Main.batch_counts embed label_id sigmoid h net g batches with
      | Some (cs, g') => Some (acc + foldr Z.add 0 cs, g')
      | None => None
      end.
Proof using Type.
  induction batches as [|batch rest IH]; intros g acc.
  - cbn. by rewrite Z.add_0_r.
  - cbn [Main.eval_loop Main.batch_counts].
    destruct (Main.eval_batch _ _ _ _ _ _ _) as [[c g1]|]; [|done]. cbn.
    rewrite IH.
    destruct (Main.batch_counts _ _ _ _ _ _ _) as [[cs g']|]; [|done]. cbn.
    by rewrite Z.add_assoc.
Qed.

(** The count of a batch is the number of its examples whose label less
    one equals the rounded sigmoid of the logit of the example. *)
Lemma batch_counts_run (h : list (list string)) (net : Main.Net scalar G)
    (batches : list (list Example)) :
  forall (g : G),
    (forall batch g, batch ∈ batches ->
       is_Some (Network.forward net (embed h batch).1 (embed h batch).2 g)) ->
    exists cs g',
      Main.batch_counts embed label_id sigmoid h net g batches = Some (cs, g')
      /\ Forall2
           (fun batch c =>
              exists g1 g2 out,
                Network.forward net (embed h batch).1 (embed h batch).2 g1
                = Some (out, g2)
                /\ length out = length batch
                /\ c = Z.of_nat
                         (count_occ bool_dec
                            (zip_with label_eqb (Main.targets label_id batch)
                               (Main.predictions sigmoid out)) true))
           batches cs.
Proof using embed_rows.
  induction batches as [|batch rest IH]; intros g Hnet.
  - exists [], g. split; [done | constructor].
  - destruct (eval_batch_count h net g batch) as (out & g1 & Hf & Hlen & Hb).
    { apply Hnet. apply list_elem_of_here. }
    destruct (IH g1) as (cs & g' & Hcs & Hall).
    { intros b g0 Hin. apply Hnet. by apply list_elem_of_further. }
    eexists (_ :: cs), g'. cbn [Main.batch_counts]. rewrite Hb. cbn.
    rewrite Hcs. cbn. split; [reflexivity|].
    constructor; [|done]. by exists g, g1, out.
Qed.

(** C7. The evaluation goes through the batches of the held-out split;
    in each batch it takes the sigmoid of every logit, rounds it, compares
    it with the label less one and counts the matches; the counts are
    added up and the value reported is 100 times their sum divided by the
    number of held-out examples.  On a non-empty split, when the forward
    passes return, every batch has its count, the number of its examples
    whose label less one is the rounded sigmoid of their logit; the
    counter of the loop ends as the sum of the counts of all the batches;
    a value is reported, 100 times this sum by the number of examples,
    and it lies between 0 and 100. *)
Theorem evaluate_accuracy (h : list (list string)) (net : Main.Net scalar G)
    (g : G) (dev : list Example) :
  dev <> [] ->
  (forall batch g, batch ∈ bucket_iterator dev ->
     is_Some (Network.forward net (embed h batch).1 (embed h batch).2 g)) ->
  (forall batch g1 c g2,
      Main.eval_batch embed label_id sigmoid h net g1 batch = Some (c, g2) ->
      exists out eq,
        Network.forward net (embed h batch).1 (embed h batch).2 g1 = Some (out, g2)
        /\ tensor_eq label_eqb (Main.targets label_id batch) (Main.predictions sigmoid out) = Some eq
        /\ c = Z.of_nat (count_occ bool_dec eq true))
  /\ exists num_correct g' acc counts,
       Main.eval_loop embed label_id sigmoid h net g 0 (bucket_iterator dev)
       = Some (num_correct, g')
       /\ 0 <= num_correct <= Z.of_nat (length dev)
       /\ Main.evaluate embed label_id sigmoid bucket_iterator h net g dev = Some acc
       /\ acc = (inject_Z (100 * num_correct) / inject_Z (Z.of_nat (length dev)))%Q
       /\ (0 <= acc)%Q /\ (acc <= 100)%Q
       /\ Main.batch_counts embed label_id sigmoid h net g (bucket_iterator dev)
          = Some (counts, g')
       /\ Forall2
            (fun batch c =>
               exists g1 g2 out,
                 Network.forward net (embed h batch).1 (embed h batch).2 g1
                 = Some (out, g2)
                 /\ length out = length batch
                 /\ c = Z.of_nat
                          (count_occ bool_dec
                             (zip_with label_eqb (Main.targets label_id batch)
                                (Main.predictions sigmoid out)) true))
            (bucket_iterator dev) counts
       /\ num_correct = foldr Z.add 0 counts.
Proof using embed_rows bucket_iterator_perm.
  intros Hne Hnet. split.
  { intros batch g1 c g2. rewrite eval_batch_unfold.
    destruct (Network.forward _ _ _ _) as [[out g3]|]; [|done].
    destruct (tensor_eq _ _ _) as [eq|] eqn:Heq; [|done].
    intros [= <- <-]. by exists out, eq. }
  destruct (eval_loop_run h net (bucket_iterator dev) g 0 Hnet)
    as (n & g' & Hloop & Hn).
  destruct (batch_counts_run h net (bucket_iterator dev) g Hnet)
    as (cs & g'' & Hcs & Hall).
  pose proof (eval_loop_counts h net (bucket_iterator dev) g 0) as Hsum.
  rewrite Hcs, Hloop in Hsum. injection Hsum as Hn' Hg'. subst g''.
  rewrite (Permutation_length (bucket_iterator_perm dev)) in Hn.
  assert (Hlen : (0 < length dev)%nat) by (destruct dev; [done | cbn; lia]).
  exists n, g', (inject_Z (100 * n) / inject_Z (Z.of_nat (length dev)))%Q, cs.
  split; [done|]. split; [lia|]. split.
  { unfold Main.evaluate. rewrite Hloop. cbn. unfold Main.accuracy.
    destruct (length dev =? 0)%nat eqn:E; [|done].
    apply Nat.eqb_eq in E. lia. }
  split; [done|]. split; [apply accuracy_range; lia|].
  split; [apply accuracy_range; lia|].
  split; [done|]. split; [done|]. lia.
Qed.

End Main_properties.

Section Label_shift.
Variables (scalar G Loss Opt : Type).
Variable embed : list (list string) -> list Example -> Network.tensor3 scalar * list Z.
Variable label_id : string -> Z.
Variable criterion : list scalar -> list Z -> Loss.
Variable update : Opt -> Main.Net scalar G -> Loss -> Opt * Main.Net scalar G.
Variable sigmoid : scalar -> option Q.

(** C1. In the training loop the loss of a batch is computed on the raw
    labels less one, and in the evaluation loop the predictions are
    compared with the raw labels less one: in both, every label is
    decremented by exactly 1 before it is used, so that the raw ids 1 and
    2 give the targets 0 and 1. *)
Theorem labels_decremented (h : list (list string)) (opt : Opt)
    (net : Main.Net scalar G) (g : G) (batch : list Example) :
  Main.train_batch embed label_id criterion update h opt net g batch
  = match Network.forward net (embed h batch).1 (embed h batch).2 g with
    | Some (output, g') =>
        let loss := criterion output (Main.targets label_id batch) in
        Some (loss, (update opt net loss, g'))
    | None => None
    end
  /\ Main.eval_batch embed label_id sigmoid h net g batch
     = match Network.forward net (embed h batch).1 (embed h batch).2 g with
       | Some (out, g') =>
           match tensor_eq label_eqb (Main.targets label_id batch)
                   (Main.predictions sigmoid out) with
           | Some eq => Some (Z.of_nat (count_occ bool_dec eq true), g')
           | None => None
           end
       | None => None
       end
  /\ Main.targets label_id batch
     = map (fun raw => raw - 1) (Main.raw_labels label_id batch)
  /\ length (Main.targets label_id batch) = length batch
  /\ (forall i raw,
        Main.raw_labels label_id batch !! i = Some raw ->
        Main.targets label_id batch !! i = Some (raw - 1))
  /\ (forall raw, raw = 1 \/ raw = 2 -> raw - 1 = 0 \/ raw - 1 = 1)
  /\ Main.shift_labels [1; 2] = [0; 1].
Proof using Type.
  assert (Ht : Main.targets label_id batch
               = map (fun raw => raw - 1) (Main.raw_labels label_id batch)).
  { unfold Main.targets, Main.raw_labels. by rewrite map_map. }
  split.
  { unfold Main.train_batch. destruct (embed h batch) as [inputs lengths].
    rewrite shift_raw_labels. cbn [fst snd].
    destruct (Network.forward net inputs lengths g) as [[output g']|]; [|done].
    cbn. by destruct (update opt net _). }
  split; [apply eval_batch_unfold|].
  split; [done|].
  split; [unfold Main.targets; by rewrite length_map|].
  split.
  { intros i raw Hi. rewrite Ht. rewrite list_lookup_fmap.
    change (map (fun e => label_id (label e)) batch !! i = Some raw) in Hi.
    unfold Main.raw_labels. by rewrite Hi. }
  split; [lia | reflexivity].
Qed.

End Label_shift.

(** ** The training set *)

Lemma aug_sentence_total tp p (h : list (list string)) (txt : loc)
    (ws : list string) (lbl : string) :
  h !! txt = Some ws -> ws <> [] -> Z.of_nat (length ws) < length_bound ->
  exists exs p' h',
    aug_sentence txt lbl (mkState tp p h) = Some (exs, mkState tp p' h')
    /\ length exs = 4%nat
    /\ Forall (fun e => label e = Py.rstrip "010" lbl) exs
    /\ h `prefix_of` h'.
Proof.
  intros Hw Hne Hlen.
  assert (Hk : swap_count (Z.of_nat (length ws))
               = Some (Z.max 1 (Z.of_nat (length ws) / 5)))
    by (apply swap_count_small; lia).
  eexists _, _, _. split; [by eapply aug_sentence_run|].
  split; [done|]. split; [by repeat constructor|].
  unfold round_heap. by do 2 apply prefix_app_r.
Qed.

Lemma wf_example_prefix (h h' : list (list string)) (e : Example) :
  wf_example h e -> h `prefix_of` h' -> wf_example h' e.
Proof.
  intros (ws & Hw & Hne & Hlen) Hpre. exists ws.
  split; [by eapply prefix_lookup_Some | done].
Qed.

Lemma augment_all_run (exs : list Example) :
  forall (acc : list Example) tp p (h : list (list string)),
    Forall (wf_example h) exs ->
    exists aug p' h',
      Main.augment_all exs acc (mkState tp p h)
      = Some (acc ++ aug, mkState tp p' h')
      /\ length aug = (4 * length exs)%nat
      /\ h `prefix_of` h'.
Proof.
  induction exs as [|i rest IH]; intros acc tp p h Hwf.
  - exists [], p, h. by rewrite app_nil_r.
  - apply Forall_cons in Hwf as [(ws & Hw & Hne & Hlen) Hrest].
    destruct (aug_sentence_total tp p h (text i) ws (label i) Hw Hne Hlen)
      as (new & p1 & h1 & Hrun & Hnew & _ & Hpre).
    destruct (IH (acc ++ new) tp p1 h1) as (aug & p' & h' & Hloop & Haug & Hpre').
    { eapply Forall_impl; [exact Hrest|].
      intros e He. by eapply wf_example_prefix. }
    exists (new ++ aug), p', h'.
    cbn [Main.augment_all]. rewrite run_bind, Hrun, Hloop.
    split; [by rewrite app_assoc|].
    split; [rewrite length_app; cbn [length]; lia | by etrans].
Qed.

(** C10. When the examples of both splits can be augmented, the training
    set is built, and it is the training examples, then the examples of
    the dev split, then four augmented examples for each of them: every
    dev example is in it (as many times at least as in the dev split),
    with its tokens unchanged, so every example of every evaluation batch
    is an example of some training batch. *)
Theorem dev_in_training_set
    (bucket_iterator : list Example -> list (list Example))
    (train dev : list Example) (st : state) :
  (forall exs, concat (bucket_iterator exs) ≡ₚ exs) ->
  Forall (wf_example (heap st)) (train ++ dev) ->
  exists aug st',
    Main.training_set train dev st = Some ((train ++ dev) ++ aug, st')
    /\ length aug = (4 * (length train + length dev))%nat
    /\ (forall e, e ∈ dev -> e ∈ (train ++ dev) ++ aug)
    /\ dev `sublist_of` (train ++ dev) ++ aug
    /\ (forall e, e ∈ dev -> heap st' !! text e = heap st !! text e)
    /\ (forall batch e,
          batch ∈ bucket_iterator dev -> e ∈ batch ->
          exists tb, tb ∈ bucket_iterator ((train ++ dev) ++ aug) /\ e ∈ tb).
Proof.
  destruct st as [tp p h]. cbn [heap]. intros Hperm Hwf.
  destruct (augment_all_run (train ++ dev) [] tp p h Hwf)
    as (aug & p' & h' & Hrun & Hlen & Hpre).
  exists aug, (mkState tp p' h').
  assert (Hin : forall e, e ∈ dev -> e ∈ (train ++ dev) ++ aug).
  { intros e He. apply elem_of_app. left. apply elem_of_app. by right. }
  split; [unfold Main.training_set; by rewrite run_bind, Hrun|].
  split; [by rewrite Hlen, length_app|].
  split; [done|].
  split; [apply sublist_inserts_r, sublist_inserts_l; reflexivity|].
  split.
  { intros e He. cbn [heap].
    assert (Hwe : wf_example h e).
    { eapply Forall_forall in Hwf; [exact Hwf|].
      apply elem_of_app. by right. }
    destruct Hwe as (ws & Hw & _). rewrite Hw.
    by eapply prefix_lookup_Some. }
  intros batch e Hb He.
  assert (Hdev : e ∈ dev).
  { rewrite <- (Hperm dev). apply list_elem_of_In, in_concat.
    exists batch. split; by apply list_elem_of_In. }
  specialize (Hin e Hdev). rewrite <- (Hperm ((train ++ dev) ++ aug)) in Hin.
  apply list_elem_of_In, in_concat in Hin as (tb & Htb & Hetb).
  exists tb. split; by apply list_elem_of_In.
Qed.

(** ** The statements on the small instance *)

Lemma toy_bucket_iterator_perm (exs : list Example) :
  concat (Toy.bucket_iterator exs) ≡ₚ exs.
Proof. unfold Toy.bucket_iterator. cbn. by rewrite app_nil_r. Qed.

Lemma toy_embed_rows (h : list (list string)) (batch : list Example) :
  length (Toy.embed h batch).1 = length batch.
Proof. unfold Toy.embed. cbn. by rewrite length_map. Qed.

Lemma evaluate_accuracy_witness :
  exists acc counts g',
    Main.evaluate Toy.embed Toy.label_id Toy.sigmoid Toy.bucket_iterator
      Toy.store Toy.net tt (Toy.train ++ Toy.dev) = Some acc
    /\ Main.batch_counts Toy.embed Toy.label_id Toy.sigmoid Toy.store Toy.net tt
         (Toy.bucket_iterator (Toy.train ++ Toy.dev)) = Some (counts, g')
    /\ Main.eval_loop Toy.embed Toy.label_id Toy.sigmoid Toy.store Toy.net tt 0
         (Toy.bucket_iterator (Toy.train ++ Toy.dev))
       = Some (foldr Z.add 0 counts, g')
    /\ (0 <= acc)%Q /\ (acc <= 100)%Q.
Proof.
  destruct (evaluate_accuracy Z unit Toy.embed Toy.label_id Toy.sigmoid
              Toy.bucket_iterator toy_embed_rows toy_bucket_iterator_perm
              Toy.store Toy.net tt (Toy.train ++ Toy.dev))
    as (_ & n & g' & acc & counts & Hloop & _ & Hacc & _ & H0 & H100
        & Hcounts & _ & Hsum).
  - discriminate.
  - intros batch g Hin. apply list_elem_of_singleton in Hin. subst batch.
    vm_compute. eauto.
  - exists acc, counts, g'. rewrite <- Hsum.
    split; [assumption|]. split; [assumption|]. split; [assumption|].
    split; assumption.
Defined.

Lemma dev_in_training_set_witness :
  exists aug st',
    Main.training_set Toy.train Toy.dev (mkState (fun i => N.of_nat i) 0 Toy.store)
    = Some ((Toy.train ++ Toy.dev) ++ aug, st')
    /\ (forall e, e ∈ Toy.dev -> e ∈ (Toy.train ++ Toy.dev) ++ aug).
Proof.
  destruct (dev_in_training_set Toy.bucket_iterator Toy.train Toy.dev
              (mkState (fun i => N.of_nat i) 0 Toy.store)
              toy_bucket_iterator_perm)
    as (aug & st' & Hrun & _ & Hin & _).
  - repeat constructor; eexists; (split; [reflexivity|]);
      (split; [discriminate | reflexivity]).
  - exists aug, st'. split; assumption.
Defined.

(* ------------------------------------------------------------------ *)
(** * Further properties of the augmentation *)

Lemma kept_tokens_sublist tp p prob (ws : list string) :
  kept_tokens tp p prob ws `sublist_of` ws.
Proof.
  revert p. induction ws as [|w ws IH]; intros p; cbn [kept_tokens]; [done|].
  destruct (keeps prob (tp p)); cbn [app].
  - by apply sublist_skip.
  - by apply sublist_cons.
Qed.

Lemma singleton_sublist (ws : list string) (i : nat) (w : string) :
  ws !! i = Some w -> [w] `sublist_of` ws.
Proof.
  intros H. rewrite <- (take_drop_middle ws i w H).
  apply sublist_inserts_l, sublist_skip, sublist_nil_l.
Qed.

Lemma deletion_sublist tp p prob (ws : list string) :
  (deletion tp p prob ws).1 `sublist_of` ws.
Proof.
  destruct (decide (length ws = 1%nat)) as [E|E].
  - destruct ws as [|x [|x' ws']]; done.
  - rewrite deletion_cases by done.
    destruct (kept_tokens tp p prob ws) as [|k kept] eqn:Hk.
    + cbn [fst].
      destruct (ws !! pick tp (p + length ws) (length ws)) as [x|] eqn:Hx;
        cbn [option_list]; [by eapply singleton_sublist | apply sublist_nil_l].
    + cbn [fst]. rewrite <- Hk. apply kept_tokens_sublist.
Qed.

(** X1. On a non-empty list [rand_del] returns the join of a subsequence
    of the input: the retained tokens keep their order and none is
    repeated.  A list of one token costs no draw; otherwise the pass
    makes one draw per token, and one more when it kept nothing. *)
Theorem rand_del_subsequence (words : loc) (ws : list string)
    (prob : spec_float) (st : state) :
  heap st !! words = Some ws -> ws <> [] ->
  exists kept st',
    rand_del words prob st = Some (Py.join " " kept, st')
    /\ kept `sublist_of` ws
    /\ (length kept <= length ws)%nat
    /\ tape st' = tape st
    /\ (length ws = 1%nat -> pos st' = pos st)
    /\ (length ws <> 1%nat ->
        pos st' = (pos st + length ws
                   + if decide (kept_tokens (tape st) (pos st) prob ws = [])
                     then 1 else 0)%nat).
Proof.
  destruct st as [tp p h]. cbn [heap tape pos]. intros Hw Hne.
  exists (deletion tp p prob ws).1. eexists.
  split; [by apply rand_del_run|].
  split; [apply deletion_sublist|].
  split; [apply sublist_length, deletion_sublist|].
  split; [done|]. cbn [pos]. split.
  - intros H1. destruct ws as [|w [|w' ws']]; done.
  - intros H1. rewrite deletion_cases by done.
    destruct (kept_tokens tp p prob ws); cbn [snd]; case_decide; try done; lia.
Qed.

Lemma rand_del_subsequence_witness :
  exists kept st',
    rand_del 0%nat Float.lit_0_3
      (mkState (fun i => N.of_nat i) 0 [["a"; "good"; "movie"]])
    = Some (Py.join " " kept, st')
    /\ kept `sublist_of` ["a"; "good"; "movie"].
Proof.
  destruct (rand_del_subsequence 0%nat ["a"; "good"; "movie"] Float.lit_0_3
              (mkState (fun i => N.of_nat i) 0 [["a"; "good"; "movie"]]))
    as (kept & st' & Hrun & Hsub & _); [reflexivity | discriminate |].
  exists kept, st'. split; assumption.
Defined.

Lemma rand_del_empty (words : loc) (prob : spec_float) tp p
    (h : list (list string)) :
  h !! words = Some [] -> rand_del words prob (mkState tp p h) = None.
Proof.
  intros Hw. unfold rand_del.
  rewrite run_bind. unfold Store.new at 1. cbn [heap tape pos].
  rewrite run_bind, (len_run _ _ _ _ []) by (by apply heap_old_lookup).
  change (Z.of_nat (length (@nil string)) =? 1) with false. cbn iota.
  rewrite !run_bind, (read_run _ _ _ _ []) by (by apply heap_old_lookup).
  cbn [for_each]. rewrite run_bind, run_ret.
  rewrite run_bind, (len_run _ _ _ _ _ (heap_last_lookup _ _)).
  change (Z.of_nat (length (@nil string)) =? 0) with true. cbn iota.
  rewrite !run_bind, (len_run _ _ _ _ []) by (by apply heap_old_lookup).
  rewrite run_bind, randint_empty; [done | cbn; lia].
Qed.

(** X2. On the empty list [rand_del] raises, whatever the probability
    and the draws: nothing is kept, and the fallback asks the generator
    for an index of the empty range. *)
Theorem rand_del_empty_raises (words : loc) (prob : spec_float) (st : state) :
  heap st !! words = Some [] -> rand_del words prob st = None.
Proof. destruct st as [tp p h]. apply rand_del_empty. Qed.

Lemma rand_del_empty_raises_witness :
  rand_del 0%nat Float.lit_0_3 (mkState (fun i => N.of_nat i) 7 [[]]) = None.
Proof. apply (rand_del_empty_raises 0%nat Float.lit_0_3). reflexivity. Defined.

(** X3. [rand_del] writes to no list that existed before the call, not
    even when the input has one token and its result variable is the
    input list itself: every list of the store is found unchanged, and
    exactly one list has been added. *)
Theorem rand_del_preserves_store (words : loc) (ws : list string)
    (prob : spec_float) (st : state) :
  heap st !! words = Some ws -> ws <> [] ->
  exists rd st',
    rand_del words prob st = Some (rd, st')
    /\ length (heap st') = S (length (heap st))
    /\ (forall a l, heap st !! a = Some l -> heap st' !! a = Some l).
Proof.
  destruct st as [tp p h]. cbn [heap]. intros Hw Hne.
  eexists _, _. split; [by apply rand_del_run|]. cbn [heap].
  split; [rewrite length_app; cbn; lia|].
  intros a l Ha. by apply heap_old_lookup.
Qed.

Lemma rand_del_preserves_store_witness :
  exists rd st',
    rand_del 1%nat Float.lit_0_3
      (mkState (fun i => N.of_nat i) 0 [["good"; "movie"]; ["bad"]])
    = Some (rd, st')
    /\ heap st' !! 1%nat = Some ["bad"].
Proof.
  destruct (rand_del_preserves_store 1%nat ["bad"] Float.lit_0_3
              (mkState (fun i => N.of_nat i) 0 [["good"; "movie"]; ["bad"]]))
    as (rd & st' & Hrun & _ & Hkeep); [reflexivity | discriminate |].
  exists rd, st'. split; [assumption|]. apply Hkeep. reflexivity.
Defined.

(** X4. With a number of attempts that is zero or negative the loop of
    [rand_swap] is not entered: the tokens are returned in their order,
    no draw is made, and this holds for the empty list too. *)
Theorem rand_swap_no_attempt (words : loc) (ws : list string) (n : Z)
    (st : state) :
  heap st !! words = Some ws -> n <= 0 ->
  rand_swap words n st
  = Some (Py.join " " ws, mkState (tape st) (pos st) (heap st ++ [ws])).
Proof.
  destruct st as [tp p h]. cbn [heap tape pos]. intros Hw Hn.
  unfold rand_swap, Store.copy.
  rewrite !run_bind, (read_run _ _ _ _ ws) by done.
  unfold Store.new. cbn [heap tape pos].
  replace (Z.to_nat n) with 0%nat by lia. cbn [for_range].
  rewrite run_bind, run_ret.
  by rewrite run_bind, (read_run _ _ _ _ _ (heap_last_lookup _ _)).
Qed.

Lemma rand_swap_no_attempt_witness :
  rand_swap 0%nat 0 (mkState (fun i => N.of_nat i) 3 [[]])
  = Some ("", mkState (fun i => N.of_nat i) 3 [[]; []]).
Proof.
  apply (rand_swap_no_attempt 0%nat [] 0 (mkState (fun i => N.of_nat i) 3 [[]]));
    [reflexivity | lia].
Defined.

(** X5. On the empty list [rand_swap] raises as soon as one attempt is
    asked for: the first index is drawn from the empty range. *)
Theorem rand_swap_empty_raises (words : loc) (n : Z) (st : state) :
  heap st !! words = Some [] -> 1 <= n -> rand_swap words n st = None.
Proof.
  destruct st as [tp p h]. cbn [heap]. intros Hw Hn.
  unfold rand_swap, Store.copy.
  rewrite !run_bind, (read_run _ _ _ _ []) by done.
  unfold Store.new. cbn [heap tape pos].
  destruct (Z.to_nat n) as [|k] eqn:E; [lia|]. cbn [for_range].
  rewrite !run_bind. unfold swap_attempt.
  rewrite run_bind, (len_run _ _ _ _ []) by (by apply heap_old_lookup).
  rewrite run_bind, randint_empty; [done | cbn; lia].
Qed.

Lemma rand_swap_empty_raises_witness :
  rand_swap 0%nat 1 (mkState (fun i => N.of_nat i) 0 [[]]) = None.
Proof.
  apply (rand_swap_empty_raises 0%nat 1 (mkState (fun i => N.of_nat i) 0 [[]]));
    [reflexivity | lia].
Defined.

Lemma pick_one (tp : nat -> N) (p : nat) : pick tp p 1 = 0%nat.
Proof. unfold pick. by rewrite Z.mod_1_r. Qed.

Lemma attempts_single tp (n : nat) (w : string) (p : nat) :
  attempts tp n [w] p = ([w], (p + 4 * n)%nat).
Proof.
  unfold attempts. induction n as [|n IH].
  - cbn. f_equal. lia.
  - rewrite Nat.iter_succ, IH. unfold attempt. cbn [fst snd length].
    cbn [try_candidates length]. rewrite !pick_one. cbn. f_equal. lia.
Qed.

(** X6. A list of one token comes back from [rand_swap] as it is: the two
    indices of an attempt are always equal, so each attempt uses its
    three candidates, four draws in all, and swaps nothing. *)
Theorem rand_swap_single_token (words : loc) (w : string) (n : Z) (st : state) :
  heap st !! words = Some [w] ->
  exists st',
    rand_swap words n st = Some (w, st')
    /\ pos st' = (pos st + 4 * Z.to_nat n)%nat
    /\ heap st' = heap st ++ [[w]].
Proof.
  destruct st as [tp p h]. cbn [heap tape pos]. intros Hw.
  exists (mkState tp (p + 4 * Z.to_nat n) (h ++ [[w]])).
  split; [|done].
  rewrite (rand_swap_run tp h words [w]) by done.
  by rewrite attempts_single.
Qed.

Lemma rand_swap_single_token_witness :
  exists st',
    rand_swap 0%nat 3 (mkState (fun i => N.of_nat i) 0 [["movie"]])
    = Some ("movie", st')
    /\ pos st' = 12%nat.
Proof.
  destruct (rand_swap_single_token 0%nat "movie" 3
              (mkState (fun i => N.of_nat i) 0 [["movie"]]))
    as (st' & Hrun & Hpos & _); [reflexivity|].
  exists st'. split; assumption.
Defined.

Lemma try_candidates_first (k : nat) tp p r1 (l : list string) :
  (S p <= (try_candidates (S k) tp p r1 l).2)%nat.
Proof.
  cbn [try_candidates]. case_decide; cbn [snd]; [|lia].
  pose proof (try_candidates_pos k tp (S p) r1 l). lia.
Qed.

Lemma attempts_pos tp (n : nat) (l : list string) (p : nat) :
  (p + 2 * n <= (attempts tp n l p).2 <= p + 4 * n)%nat.
Proof.
  unfold attempts. induction n as [|n IH]; [cbn; lia|].
  rewrite Nat.iter_succ. unfold attempt at 1 3.
  set (lp := Nat.iter n (attempt tp) (l, p)) in *.
  pose proof (try_candidates_first 2 tp (S lp.2) (pick tp lp.2 (length lp.1)) lp.1).
  pose proof (try_candidates_pos 3 tp (S lp.2) (pick tp lp.2 (length lp.1)) lp.1).
  lia.
Qed.

(** X7. On a non-empty list [rand_swap] makes at least two and at most
    four draws for each attempt, and reads them from the generator only:
    the outcomes still to come are not changed. *)
Theorem rand_swap_draws (words : loc) (ws : list string) (n : Z) (st : state) :
  heap st !! words = Some ws -> ws <> [] ->
  exists rs st',
    rand_swap words n st = Some (rs, st')
    /\ tape st' = tape st
    /\ (pos st + 2 * Z.to_nat n <= pos st' <= pos st + 4 * Z.to_nat n)%nat.
Proof.
  destruct st as [tp p h]. cbn [heap tape pos]. intros Hw Hne.
  eexists _, _. split; [by apply rand_swap_run|].
  cbn [tape pos]. split; [done|]. apply attempts_pos.
Qed.

Lemma rand_swap_draws_witness :
  exists rs st',
    rand_swap 0%nat 2 (mkState (fun i => N.of_nat i) 0 [["a"; "b"; "c"]])
    = Some (rs, st')
    /\ (4 <= pos st' <= 8)%nat.
Proof.
  destruct (rand_swap_draws 0%nat ["a"; "b"; "c"] 2
              (mkState (fun i => N.of_nat i) 0 [["a"; "b"; "c"]]))
    as (rs & st' & Hrun & _ & Hpos); [reflexivity | discriminate |].
  exists rs, st'. split; [assumption | exact Hpos].
Defined.

(* ------------------------------------------------------------------ *)
(** * Further properties of the preprocessing *)

Lemma lower_char_alnum (c : ascii) :
  Py.isalnum c = true -> Py.isalnum (Py.lower_char c) = true.
Proof. destruct c as [[] [] [] [] [] [] [] []]; vm_compute; congruence. Qed.

Lemma lower_char_idem (c : ascii) :
  Py.lower_char (Py.lower_char c) = Py.lower_char c.
Proof. destruct c as [[] [] [] [] [] [] [] []]; vm_compute; reflexivity. Qed.

Lemma lower_idem (s : string) : Py.lower (Py.lower s) = Py.lower s.
Proof.
  induction s as [|c s IH]; [done|]. cbn [Py.lower].
  by rewrite lower_char_idem, IH.
Qed.

Lemma lower_wf_token (t : string) : wf_token t -> wf_token (Py.lower t).
Proof.
  intros [Hne Hal]. split; [by destruct t|].
  clear Hne. induction t as [|c t IH]; [done|].
  cbn [Py.all_chars Py.lower] in *. apply andb_true_iff in Hal as [Hc Ht].
  by rewrite lower_char_alnum, IH.
Qed.

Lemma rstrip_id (ch : ascii) (s : string) :
  Py.all_chars (fun c => negb (Ascii.eqb c ch)) s = true -> Py.rstrip ch s = s.
Proof.
  induction s as [|c s IH]; [done|].
  cbn [Py.all_chars Py.rstrip]. intros [Hc Hs]%andb_true_iff.
  rewrite (IH Hs). destruct s; [|done].
  apply negb_true_iff in Hc. by rewrite Hc.
Qed.

Lemma all_chars_rstrip (p : ascii -> bool) (ch : ascii) (s : string) :
  Py.all_chars p s = true -> Py.all_chars p (Py.rstrip ch s) = true.
Proof.
  induction s as [|c s IH]; [done|].
  cbn [Py.all_chars Py.rstrip]. intros [Hc Hs]%andb_true_iff.
  specialize (IH Hs). destruct (Py.rstrip ch s) as [|c' r].
  - destruct (Ascii.eqb c ch); [done|]. cbn. by rewrite Hc.
  - cbn [Py.all_chars] in *. by rewrite Hc, IH.
Qed.

Lemma isalnum_not_newline (c : ascii) :
  Py.isalnum c || Ascii.eqb c " " = true -> negb (Ascii.eqb c "010") = true.
Proof. destruct c as [[] [] [] [] [] [] [] []]; vm_compute; congruence. Qed.

Lemma join_tokens_chars (toks : list string) :
  Forall wf_token toks ->
  Py.all_chars (fun c => Py.isalnum c || Ascii.eqb c " ") (Py.join " " toks) = true.
Proof.
  intros Hwf. apply join_chars; [done|]. eapply Forall_impl; [exact Hwf|].
  intros t [_ Ht]. eapply all_chars_impl; [|exact Ht].
  intros c Hc. by rewrite Hc.
Qed.

(** The field gives back well-formed lower-case tokens joined by spaces. *)
Lemma preprocess_join (toks : list string) :
  Forall wf_token toks -> Forall (fun t => Py.lower t = t) toks ->
  PreProcessing.text_field_preprocess (Py.join " " toks) = toks.
Proof.
  intros Hwf Hlow. unfold PreProcessing.text_field_preprocess, PreProcessing.pre.
  rewrite rstrip_id.
  - rewrite tokenizer_join by done.
    induction Hlow as [|t toks Ht _ IH]; [done|].
    apply Forall_cons in Hwf as [_ Hwf]. cbn [map]. by rewrite Ht, IH.
  - eapply all_chars_impl; [|by apply join_tokens_chars].
    apply isalnum_not_newline.
Qed.

Lemma preprocess_tokens (x : string) :
  Forall wf_token (PreProcessing.text_field_preprocess x)
  /\ Forall (fun t => Py.lower t = t) (PreProcessing.text_field_preprocess x).
Proof.
  unfold PreProcessing.text_field_preprocess, PreProcessing.pre.
  pose proof (tokenizer_tokens (Py.rstrip "010" x)) as Hwf.
  induction Hwf as [|t toks Ht _ [IH1 IH2]]; [done|]. cbn [map]. split.
  - constructor; [by apply lower_wf_token | done].
  - constructor; [apply lower_idem | done].
Qed.

(** X8. For every text of the Latin-1 range (code points U+0000 to
    U+00FF, the strings of the embedding), the tokens the text field
    makes of it are non-empty, alphanumeric and in lower case, and they
    are a fixed point of the field: joined by spaces and processed again
    they come back as they are.  The restriction is needed: outside this
    range the lower case of one character can be two, the second not
    alphanumeric (U+0130), and the property is not stated there. *)
Theorem preprocess_fixed_point (x : string) :
  Forall wf_token (PreProcessing.text_field_preprocess x)
  /\ Forall (fun t => Py.lower t = t) (PreProcessing.text_field_preprocess x)
  /\ PreProcessing.text_field_preprocess
       (Py.join " " (PreProcessing.text_field_preprocess x))
     = PreProcessing.text_field_preprocess x.
Proof.
  destruct (preprocess_tokens x) as [Hwf Hlow].
  split; [done|]. split; [done|]. by apply preprocess_join.
Qed.

Lemma prefix_tag_no_alnum (s : string) :
  Py.all_chars (fun c => negb (Py.isalnum c)) s = true ->
  String.prefix "<br />" s = false.
Proof.
  destruct s as [|c1 [|c2 s]]; [done| |].
  - intros _. cbn -[ascii_dec]. by destruct (ascii_dec "<" c1).
  - cbn [Py.all_chars]. intros [_ [H2 _]%andb_true_iff]%andb_true_iff.
    cbn -[ascii_dec]. destruct (ascii_dec "<" c1); [|done].
    destruct (ascii_dec "b" c2) as [<-|]; [|done]. by vm_compute in H2.
Qed.

Lemma replace_no_alnum (s : string) :
  Py.all_chars (fun c => negb (Py.isalnum c)) s = true ->
  Py.replace "<br />" " " s = s.
Proof.
  unfold Py.replace. induction s as [|c s IH]; [done|]. intros Hs.
  cbn [Py.replace_from]. rewrite (prefix_tag_no_alnum _ Hs).
  cbn [Py.all_chars] in Hs. apply andb_true_iff in Hs as [_ Hs].
  by rewrite IH.
Qed.

Lemma split_blank_no_alnum (s : string) :
  Py.all_chars (fun c => negb (Py.isalnum c)) s = true ->
  Py.split (Py.join "" (PreProcessing.blank_non_alnum s)) = [].
Proof.
  unfold Py.split, PreProcessing.blank_non_alnum.
  induction s as [|c s IH]; [done|].
  cbn [Py.all_chars]. intros [Hc Hs]%andb_true_iff.
  cbn [list_ascii_of_string map]. rewrite join_empty_cons.
  apply negb_true_iff in Hc. rewrite Hc.
  rewrite str_app_cons, str_app_nil_l. cbn [Py.split_from].
  change (Py.isspace " ") with true. cbn iota. cbn [Py.flush app].
  by apply IH.
Qed.

(** X9. A text without any alphanumeric character (punctuation,
    whitespace, or nothing at all) has no token: the tokenizer and the
    text field both return the empty list. *)
Theorem tokenizer_no_alnum (txt : string) :
  Py.all_chars (fun c => negb (Py.isalnum c)) txt = true ->
  PreProcessing.tokenizer txt = []
  /\ PreProcessing.text_field_preprocess txt = [].
Proof.
  assert (Htok : forall s, Py.all_chars (fun c => negb (Py.isalnum c)) s = true ->
                           PreProcessing.tokenizer s = []).
  { intros s Hs. unfold PreProcessing.tokenizer.
    rewrite replace_no_alnum by done. by apply split_blank_no_alnum. }
  intros Htxt. split; [by apply Htok|].
  unfold PreProcessing.text_field_preprocess, PreProcessing.pre.
  rewrite Htok; [done|]. by apply all_chars_rstrip.
Qed.

Lemma tokenizer_no_alnum_witness :
  PreProcessing.tokenizer "?! ... <> --" = []
  /\ PreProcessing.text_field_preprocess "?! ... <> --" = [].
Proof. apply tokenizer_no_alnum. vm_compute. reflexivity. Defined.

(* ------------------------------------------------------------------ *)
(** * Further properties of the augmenter and of the training set *)

Lemma aug_sentence_texts tp p (h : list (list string)) (txt : loc)
    (ws : list string) (lbl : string) (k : Z) :
  h !! txt = Some ws ->
  let d1 := round_del tp ws p in
  let s1 := round_swap tp ws k p in
  let d2 := round_del tp ws s1.2 in
  let s2 := round_swap tp ws k s1.2 in
  let h2 := round_heap tp ws k s1.2 (round_heap tp ws k p h) in
  h2 !! (length h + 2)%nat
  = Some (PreProcessing.text_field_preprocess (Py.join " " d1.1))
  /\ h2 !! (length h + 3)%nat
     = Some (PreProcessing.text_field_preprocess (Py.join " " s1.1))
  /\ h2 !! (length h + 6)%nat
     = Some (PreProcessing.text_field_preprocess (Py.join " " d2.1))
  /\ h2 !! (length h + 7)%nat
     = Some (PreProcessing.text_field_preprocess (Py.join " " s2.1))
  /\ h2 !! txt = Some ws.
Proof.
  intros Hw d1 s1 d2 s2 h2.
  set (h1 := round_heap tp ws k p h).
  assert (Hl1 : length h1 = (length h + 4)%nat).
  { unfold h1, round_heap. rewrite length_app. done. }
  assert (Hpre : forall i x, h1 !! i = Some x -> h2 !! i = Some x).
  { intros i x Hx. unfold h2, round_heap. fold h1.
    rewrite lookup_app_l; [done|]. by eapply lookup_lt_Some. }
  split; [apply Hpre; unfold h1, round_heap; by rewrite heap_new_lookup|].
  split; [apply Hpre; unfold h1, round_heap; by rewrite heap_new_lookup|].
  split.
  { unfold h2, round_heap. fold h1.
    replace (length h + 6)%nat with (length h1 + 2)%nat by lia.
    by rewrite heap_new_lookup. }
  split.
  { unfold h2, round_heap. fold h1.
    replace (length h + 7)%nat with (length h1 + 3)%nat by lia.
    by rewrite heap_new_lookup. }
  apply Hpre. unfold h1, round_heap.
  rewrite lookup_app_l; [done|]. by eapply lookup_lt_Some.
Qed.

(** X10. For an example whose tokens are well formed and in lower case
    (as the text field makes them), the token lists of the four examples
    of [aug_sentence] are, in this order: a non-empty subsequence of the
    input tokens, a permutation of them, a non-empty subsequence, a
    permutation.  Joining the tokens into a string and processing the
    string again loses nothing, and the input list is left as it was. *)
Theorem aug_sentence_tokens (txt : loc) (ws : list string) (lbl : string)
    (st : state) :
  heap st !! txt = Some ws -> ws <> [] ->
  Z.of_nat (length ws) < length_bound ->
  Forall wf_token ws -> Forall (fun t => Py.lower t = t) ws ->
  exists e1 e2 e3 e4 st' d1 s1 d2 s2,
    aug_sentence txt lbl st = Some ([e1; e2; e3; e4], st')
    /\ heap st' !! text e1 = Some d1
    /\ heap st' !! text e2 = Some s1
    /\ heap st' !! text e3 = Some d2
    /\ heap st' !! text e4 = Some s2
    /\ d1 <> [] /\ d1 `sublist_of` ws
    /\ d2 <> [] /\ d2 `sublist_of` ws
    /\ s1 ≡ₚ ws /\ s2 ≡ₚ ws
    /\ heap st' !! txt = Some ws.
Proof.
  destruct st as [tp p h]. cbn [heap]. intros Hw Hne Hlen Hwf Hlow.
  set (k := Z.max 1 (Z.of_nat (length ws) / 5)).
  assert (Hk : swap_count (Z.of_nat (length ws)) = Some k)
    by (apply swap_count_small; lia).
  destruct (aug_sentence_texts tp p h txt ws lbl k Hw)
    as (H1 & H2 & H3 & H4 & H5).
  assert (Hdel : forall q,
            PreProcessing.text_field_preprocess
              (Py.join " " (round_del tp ws q).1) = (round_del tp ws q).1).
  { intros q. apply preprocess_join; apply Forall_forall;
      intros t Ht%deletion_elem.
    - by eapply Forall_forall in Hwf.
    - by eapply Forall_forall in Hlow. }
  assert (Hswap : forall q,
            PreProcessing.text_field_preprocess
              (Py.join " " (round_swap tp ws k q).1) = (round_swap tp ws k q).1).
  { intros q. unfold round_swap.
    destruct (attempts_perm tp (Z.to_nat k) ws (round_del tp ws q).2) as [Hp _].
    apply preprocess_join; by rewrite Hp. }
  rewrite Hdel in H1, H3. rewrite Hswap in H2, H4.
  eexists _, _, _, _, _, _, _, _, _.
  split; [by eapply aug_sentence_run|]. cbn [heap text].
  split; [exact H1|]. split; [exact H2|]. split; [exact H3|].
  split; [exact H4|].
  split; [by apply deletion_nonempty|]. split; [apply deletion_sublist|].
  split; [by apply deletion_nonempty|]. split; [apply deletion_sublist|].
  split; [apply attempts_perm|]. split; [apply attempts_perm | exact H5].
Qed.

Lemma aug_sentence_tokens_witness :
  exists e1 e2 e3 e4 st' d1 s1,
    aug_sentence 0%nat "pos" (mkState (fun i => N.of_nat i) 0 [["good"; "movie"]])
    = Some ([e1; e2; e3; e4], st')
    /\ heap st' !! text e1 = Some d1 /\ d1 `sublist_of` ["good"; "movie"]
    /\ heap st' !! text e2 = Some s1 /\ s1 ≡ₚ ["good"; "movie"].
Proof.
  destruct (aug_sentence_tokens 0%nat ["good"; "movie"] "pos"
              (mkState (fun i => N.of_nat i) 0 [["good"; "movie"]]))
    as (e1 & e2 & e3 & e4 & st' & d1 & s1 & d2 & s2 & Hrun & H1 & H2 & _ & _
        & _ & Hd1 & _ & _ & Hs1 & _).
  - reflexivity.
  - discriminate.
  - reflexivity.
  - repeat constructor; vm_compute; congruence.
  - repeat constructor.
  - exists e1, e2, e3, e4, st', d1, s1. repeat split; assumption.
Defined.

Lemma aug_sentence_empty tp p (h : list (list string)) (txt : loc) (lbl : string) :
  h !! txt = Some [] -> aug_sentence txt lbl (mkState tp p h) = None.
Proof.
  intros Hw. unfold aug_sentence. cbn [aug_rounds].
  rewrite run_bind. unfold aug_round. by rewrite run_bind, rand_del_empty.
Qed.

Lemma augment_all_raises (exs : list Example) :
  forall (acc : list Example) tp p (h : list (list string)),
    Forall (fun e => wf_example h e \/ h !! text e = Some []) exs ->
    Exists (fun e => h !! text e = Some []) exs ->
    Main.augment_all exs acc (mkState tp p h) = None.
Proof.
  induction exs as [|i rest IH]; intros acc tp p h Hall Hex.
  - by apply Exists_nil in Hex.
  - apply Forall_cons in Hall as [Hi Hrest]. cbn [Main.augment_all].
    rewrite run_bind. destruct Hi as [(ws & Hw & Hne & Hlen)|Hempty].
    + destruct (aug_sentence_total tp p h (text i) ws (label i) Hw Hne Hlen)
        as (new & p1 & h1 & Hrun & _ & _ & Hpre).
      rewrite Hrun. apply IH.
      * eapply Forall_impl; [exact Hrest|]. intros e [He|He].
        -- left. by eapply wf_example_prefix.
        -- right. eapply prefix_lookup_Some; [exact He | exact Hpre].
      * apply Exists_cons in Hex as [Hhd|Htl].
        -- rewrite Hw in Hhd. by injection Hhd as ->.
        -- eapply Exists_impl; [exact Htl|]. intros e He. cbn beta in He.
           by eapply prefix_lookup_Some.
    + by rewrite aug_sentence_empty.
Qed.

(** X11. One example without tokens, in either split, is enough for the
    construction of the training set to raise: [aug_sentence] is called
    on every example of the training and dev splits, and it raises on
    the empty one. *)
Theorem training_set_raises (train dev : list Example) (st : state) :
  Forall (fun e => wf_example (heap st) e \/ heap st !! text e = Some [])
    (train ++ dev) ->
  Exists (fun e => heap st !! text e = Some []) (train ++ dev) ->
  Main.training_set train dev st = None.
Proof.
  destruct st as [tp p h]. cbn [heap]. intros Hall Hex.
  unfold Main.training_set. rewrite run_bind.
  by rewrite augment_all_raises.
Qed.

Lemma training_set_raises_witness :
  Main.training_set [mkExample 0%nat "pos"] [mkExample 1%nat "neg"]
    (mkState (fun i => N.of_nat i) 0 [["good"; "movie"]; []])
  = None.
Proof.
  apply (training_set_raises [mkExample 0%nat "pos"] [mkExample 1%nat "neg"]
           (mkState (fun i => N.of_nat i) 0 [["good"; "movie"]; []])).
  - apply Forall_cons_2; [|apply Forall_cons_2; [|apply Forall_nil_2]].
    + left. eexists. split; [reflexivity|]. split; [discriminate | reflexivity].
    + right. reflexivity.
  - apply Exists_cons_tl, Exists_cons_hd. reflexivity.
Defined.

Lemma count_occ_four (x lbl : string) :
  count_occ string_dec [x; x; x; x] lbl
  = (4 * count_occ string_dec [x] lbl)%nat.
Proof. cbn. by destruct (string_dec x lbl). Qed.

Lemma four_labels (new : list Example) (lbl : string) :
  length new = 4%nat -> Forall (fun e => label e = lbl) new ->
  map label new = [lbl; lbl; lbl; lbl].
Proof.
  destruct new as [|a [|b [|c [|d [|e new]]]]]; try done.
  intros _ H. apply Forall_cons in H as [E1 H].
  apply Forall_cons in H as [E2 H]. apply Forall_cons in H as [E3 H].
  apply Forall_cons in H as [E4 _]. cbn. by rewrite E1, E2, E3, E4.
Qed.

Lemma augment_all_labels (exs : list Example) :
  forall (acc : list Example) tp p (h : list (list string)),
    Forall (wf_example h) exs ->
    exists aug st',
      Main.augment_all exs acc (mkState tp p h) = Some (acc ++ aug, st')
      /\ forall lbl,
           count_occ string_dec (map label aug) lbl
           = (4 * count_occ string_dec
                    (map (fun e => Py.rstrip "010" (label e)) exs) lbl)%nat.
Proof.
  induction exs as [|i rest IH]; intros acc tp p h Hwf.
  - exists [], (mkState tp p h). by rewrite app_nil_r.
  - apply Forall_cons in Hwf as [(ws & Hw & Hne & Hlen) Hrest].
    destruct (aug_sentence_total tp p h (text i) ws (label i) Hw Hne Hlen)
      as (new & p1 & h1 & Hrun & Hnew & Hlbl & Hpre).
    destruct (IH (acc ++ new) tp p1 h1) as (aug & st' & Hloop & Hcount).
    { eapply Forall_impl; [exact Hrest|].
      intros e He. by eapply wf_example_prefix. }
    exists (new ++ aug), st'.
    cbn [Main.augment_all]. rewrite run_bind, Hrun, Hloop.
    split; [by rewrite app_assoc|].
    intros lbl. rewrite map_app, count_occ_app, Hcount.
    rewrite (four_labels new (Py.rstrip "010" (label i))) by done.
    rewrite count_occ_four. cbn [map].
    change (Py.rstrip "010" (label i)
            :: map (fun e => Py.rstrip "010" (label e)) rest)
      with ([Py.rstrip "010" (label i)]
            ++ map (fun e => Py.rstrip "010" (label e)) rest).
    rewrite count_occ_app. lia.
Qed.

(** X12. The labels of the training set, when every example of the two
    splits can be augmented.  The four copies of an example carry its
    label without the newlines at its end, so a label occurs in the
    training set as often as among the examples of the two splits, and
    four times more for each of these examples whose label is this one
    once the newlines at its end are removed.  When no label ends with a
    newline (no label [fromlist] made does) every label occurs five times
    as often as in the two splits: the augmentation keeps the proportions
    of the labels. *)
Theorem training_set_label_counts (train dev : list Example) (st : state) :
  Forall (wf_example (heap st)) (train ++ dev) ->
  exists examples st',
    Main.training_set train dev st = Some (examples, st')
    /\ length examples = (5 * (length train + length dev))%nat
    /\ (forall lbl,
          count_occ string_dec (map label examples) lbl
          = (count_occ string_dec (map label (train ++ dev)) lbl
             + 4 * count_occ string_dec
                     (map (fun e => Py.rstrip "010" (label e)) (train ++ dev))
                     lbl)%nat)
    /\ (Forall (fun e => Py.rstrip "010" (label e) = label e) (train ++ dev) ->
        forall lbl,
          count_occ string_dec (map label examples) lbl
          = (5 * count_occ string_dec (map label (train ++ dev)) lbl)%nat).
Proof.
  destruct st as [tp p h]. cbn [heap]. intros Hwf.
  destruct (augment_all_labels (train ++ dev) [] tp p h Hwf)
    as (aug & st' & Hrun & Hcount).
  exists ((train ++ dev) ++ aug), st'.
  split; [unfold Main.training_set; by rewrite run_bind, Hrun|].
  assert (Hall : forall lbl,
            count_occ string_dec (map label ((train ++ dev) ++ aug)) lbl
            = (count_occ string_dec (map label (train ++ dev)) lbl
               + 4 * count_occ string_dec
                       (map (fun e => Py.rstrip "010" (label e)) (train ++ dev))
                       lbl)%nat).
  { intros lbl. by rewrite map_app, count_occ_app, Hcount. }
  split.
  { (* the length: four new examples for each one of the two splits *)
    pose proof (augment_all_run (train ++ dev) [] tp p h Hwf)
      as (aug' & p' & h' & Hrun' & Hlen & _).
    rewrite Hrun in Hrun'. injection Hrun' as Haug _. subst aug'.
    rewrite !length_app, Hlen, length_app. lia. }
  split; [done|].
  intros Hclean lbl. rewrite Hall.
  rewrite (map_ext_Forall _ _ Hclean). lia.
Qed.

Lemma training_set_label_counts_witness :
  exists examples st',
    Main.training_set Toy.train Toy.dev (mkState (fun i => N.of_nat i) 0 Toy.store)
    = Some (examples, st')
    /\ count_occ string_dec (map label examples) "pos" = 5%nat.
Proof.
  destruct (training_set_label_counts Toy.train Toy.dev
              (mkState (fun i => N.of_nat i) 0 Toy.store))
    as (examples & st' & Hrun & _ & _ & Hcount).
  - repeat constructor; eexists; (split; [reflexivity|]);
      (split; [discriminate | reflexivity]).
  - exists examples, st'. split; [assumption|].
    apply Hcount. repeat constructor.
Defined.

(* ------------------------------------------------------------------ *)
(** * Further properties of the network and of the evaluation *)

Lemma view_last_rows {scalar : Type} (data : list scalar) :
  data <> [] -> Network.view_last (length data) data = Some data.
Proof.
  intros Hne. unfold Network.view_last.
  assert (Hpos : (0 < length data)%nat) by (destruct data; [done | cbn; lia]).
  destruct (length data =? 0)%nat eqn:E; [apply Nat.eqb_eq in E; lia|].
  rewrite Nat.div_same, Nat.Div0.mod_same by lia. cbn [Nat.eqb Nat.leb andb].
  apply mapM_Some. apply Forall2_same_length_lookup_2.
  - by rewrite length_seq.
  - intros i r y Hr Hy. apply lookup_seq in Hr as [-> _].
    rewrite <- Hy. f_equal. lia.
Qed.

(** X13. On a batch that is not empty, when the last two of the final
    hidden states have one row per example and the dropout layer keeps
    the number of rows, [forward] returns one logit per example: the
    linear head applied to the row the dropout layer makes of the last
    forward and the last backward hidden state of the example, joined.
    The [view] and the index of the last column change nothing then. *)
Theorem forward_logits {scalar G : Type} (self : Network.t scalar G)
    (input : Network.tensor3 scalar) (lengths : list Z) (g g1 g2 : G)
    (lstm_out hn cn : Network.tensor3 scalar)
    (fwd bwd hidden : Network.matrix scalar) :
  input <> [] ->
  Network.lstm self input g = (lstm_out, (hn, cn), g1) ->
  Network.from_end hn 2 = Some fwd ->
  Network.from_end hn 1 = Some bwd ->
  length fwd = length input -> length bwd = length input ->
  Network.dropout self (zip_with app fwd bwd) g1 = (hidden, g2) ->
  length hidden = length input ->
  Network.forward self input lengths g
  = Some (map (Network.fc self) hidden, g2).
Proof.
  intros Hne Hlstm Hfwd Hbwd Hlf Hlb Hdrop Hlh.
  unfold Network.forward. rewrite Hlstm, Hfwd, Hbwd. cbn.
  unfold Network.cat1. rewrite Hlf, Hlb, Nat.eqb_refl. cbn.
  rewrite Hdrop. rewrite <- Hlh, <- (length_map (Network.fc self) hidden).
  rewrite view_last_rows; [done|]. destruct hidden; [|done].
  destruct input; done.
Qed.

Lemma forward_logits_witness :
  Network.forward Toy.net [[[1]]; [[2]; [3]]] [1; 2] tt = Some ([2; 4], tt).
Proof.
  apply (forward_logits Toy.net [[[1]]; [[2]; [3]]] [1; 2] tt tt tt
           [[[1]]; [[2]; [3]]] [[[1]; [2]]; [[1]; [2]]; [[1]; [2]]; [[1]; [2]]]
           [[[1]; [2]]; [[1]; [2]]; [[1]; [2]]; [[1]; [2]]]
           [[1]; [2]] [[1]; [2]] [[1; 1]; [2; 2]]);
    first [reflexivity | discriminate].
Defined.

(** X14. With a held-out split that has no example the evaluation reports
    nothing: whatever the loop over the batches does, the division by
    [len(dev)] raises. *)
Theorem evaluate_empty_raises {scalar G : Type}
    (embed : list (list string) -> list Example
             -> Network.tensor3 scalar * list Z)
    (label_id : string -> Z) (sigmoid : scalar -> option Q)
    (bucket_iterator : list Example -> list (list Example))
    (h : list (list string)) (net : Main.Net scalar G) (g : G) :
  Main.evaluate embed label_id sigmoid bucket_iterator h net g [] = None.
Proof.
  unfold Main.evaluate.
  by destruct (Main.eval_loop _ _ _ _ _ _ _ _) as [[n g']|].
Qed.

Lemma round_half_even_unit (q : Q) :
  (0 <= q)%Q -> (q <= 1)%Q ->
  ((1 # 2 < q)%Q -> round_half_even q = 1)
  /\ ((q <= 1 # 2)%Q -> round_half_even q = 0).
Proof.
  destruct q as [n d]. unfold Qle, Qlt. cbn [Qnum Qden]. intros H0 H1.
  unfold round_half_even, Qfloor, Qcompare, Qminus, Qplus, Qopp, inject_Z.
  cbn [Qnum Qden].
  assert (Hf : n = Z.pos d /\ n / Z.pos d = 1
               \/ n < Z.pos d /\ n / Z.pos d = 0).
  { destruct (Z.eq_dec n (Z.pos d)) as [->|Hn].
    - left. split; [done|]. apply Z.div_same. lia.
    - right. split; [lia|]. apply Z.div_small. lia. }
  destruct Hf as [[-> ->]|[Hlt ->]].
  - split; intros Hq; [|lia].
    destruct (Z.compare_spec ((Z.pos d * 1 + - (1) * Z.pos d) * 2)
                (1 * Z.pos (d * 1))); [lia | done | lia].
  - cbn [Z.even].
    destruct (Z.compare_spec ((n * 1 + - 0 * Z.pos d) * 2)
                (1 * Z.pos (d * 1))); split; intros Hq; lia.
Qed.

(** X15. Which examples the evaluation counts as right, for a sigmoid
    with values between 0 and 1: the example at position [i] of a batch
    counts exactly when its label has the id 2 and the sigmoid of its
    logit is above one half, or its label has the id 1 and the sigmoid
    is at most one half.  A sigmoid of exactly one half is rounded to 0;
    a label with another id, or a logit that is NaN, never counts. *)
Theorem correct_prediction {scalar : Type} (label_id : string -> Z)
    (sigmoid : scalar -> option Q) (batch : list Example)
    (out : list scalar) (i : nat) (e : Example) (x : scalar) :
  (forall y q, sigmoid y = Some q -> (0 <= q)%Q /\ (q <= 1)%Q) ->
  batch !! i = Some e -> out !! i = Some x ->
  exists b,
    zip_with label_eqb (Main.targets label_id batch)
      (Main.predictions sigmoid out) !! i = Some b
    /\ (b = true <->
        exists q, sigmoid x = Some q
                  /\ (label_id (label e) = 2 /\ (1 # 2 < q)%Q
                      \/ label_id (label e) = 1 /\ (q <= 1 # 2)%Q)).
Proof.
  intros Hrange He Hx. eexists. split.
  { rewrite lookup_zip_with. unfold Main.targets, Main.predictions.
    rewrite !list_lookup_fmap, He, Hx. reflexivity. }
  destruct (sigmoid x) as [q|] eqn:Hq; rewrite Hq; cbn.
  - destruct (Hrange x q Hq) as [H0 H1].
    destruct (round_half_even_unit q H0 H1) as [Hup Hdown].
    destruct (Qlt_le_dec (1 # 2) q) as [Hgt|Hle].
    + rewrite (Hup Hgt). rewrite Z.eqb_eq. split.
      * intros Hl. exists q. split; [done|]. left. split; [lia | done].
      * intros (q' & [= <-] & [[Hl _]|[_ Hle]]); [lia|].
        exfalso. eapply Qlt_not_le; eassumption.
    + rewrite (Hdown Hle). rewrite Z.eqb_eq. split.
      * intros Hl. exists q. split; [done|]. right. split; [lia | done].
      * intros (q' & [= <-] & [[_ Hgt]|[Hl _]]); [|lia].
        exfalso. eapply Qlt_not_le; eassumption.
  - split; [done|]. by intros (q & ? & _).
Qed.

Lemma correct_prediction_witness :
  exists b,
    zip_with label_eqb (Main.targets Toy.label_id [mkExample 0%nat "pos"])
      (Main.predictions Toy.sigmoid [5]) !! 0%nat = Some b
    /\ (b = true <->
        exists q, Toy.sigmoid 5 = Some q
                  /\ (Toy.label_id "pos" = 2 /\ (1 # 2 < q)%Q
                      \/ Toy.label_id "pos" = 1 /\ (q <= 1 # 2)%Q)).
Proof.
  apply (correct_prediction Toy.label_id Toy.sigmoid [mkExample 0%nat "pos"]
           [5] 0%nat (mkExample 0%nat "pos") 5).
  - intros y q. unfold Toy.sigmoid. destruct (2 <=? y); intros [= <-]; done.
  - reflexivity.
  - reflexivity.
Defined.

(* ------------------------------------------------------------------ *)
(** * The lines the training loop prints *)

Lemma mod32_succ (i : nat) :
  (i mod 32 <> 31 -> S i mod 32 = S (i mod 32))%nat.
Proof.
  intros Hi. pose proof (Nat.mod_upper_bound i 32 ltac:(lia)) as Hlt.
  symmetry. apply (Nat.mod_unique (S i) 32 (i / 32)); [lia|].
  pose proof (Nat.div_mod_eq i 32). lia.
Qed.

Lemma mod32_mul (m : nat) : ((32 * m) mod 32 = 0)%nat.
Proof. rewrite Nat.mul_comm. apply Nat.Div0.mod_mul. Qed.

Lemma lines_of_short (epoch : nat) (xs : list spec_float) :
  forall (i : nat) (running_loss : spec_float),
    (i mod 32 + length xs < 32)%nat ->
    Report.lines_of epoch i running_loss xs = [].
Proof.
  induction xs as [|x xs IH]; intros i rl Hlen; [done|].
  cbn [Report.lines_of]. cbn [length] in Hlen.
  destruct (Nat.eqb_spec (i mod 32) 31) as [E|E]; [lia|].
  apply IH. rewrite mod32_succ by done. lia.
Qed.

Lemma lines_of_window (epoch : nat) (w : list spec_float) :
  forall (i : nat) (running_loss : spec_float) (rest : list spec_float),
    length w = (32 - i mod 32)%nat ->
    Report.lines_of epoch i running_loss (w ++ rest)
    = Report.mkLine (epoch + 1) (i + length w)
        (Float.div (fold_left Report.add w running_loss) (Float.of_Z 32))
      :: Report.lines_of epoch (i + length w) (Float.of_Z 0) rest.
Proof.
  induction w as [|x w IH]; intros i rl rest Hlen.
  - pose proof (Nat.mod_upper_bound i 32 ltac:(lia)). cbn [length] in Hlen. lia.
  - cbn [length] in Hlen. change ((x :: w) ++ rest) with (x :: (w ++ rest)).
    cbn [Report.lines_of fold_left length].
    destruct (Nat.eqb_spec (i mod 32) 31) as [E|E].
    + destruct w; [|cbn [length] in Hlen; lia].
      cbn [app fold_left length]. by rewrite (Nat.add_1_r i).
    + rewrite IH by (rewrite mod32_succ by done; lia).
      by rewrite (Nat.add_succ_r i (length w)).
Qed.

Lemma lines_of_windows (epoch : nat) :
  forall (q m : nat) (xs : list spec_float),
    (length xs / 32 = q)%nat ->
    Report.lines_of epoch (32 * m) (Float.of_Z 0) xs
    = map (fun k => Report.mkLine (epoch + 1) (32 * (m + k + 1))
                      (Report.window_mean (take 32 (drop (32 * k) xs))))
        (seq 0 q).
Proof.
  induction q as [|q IH]; intros m xs Hq.
  - apply lines_of_short. rewrite mod32_mul.
    apply Nat.div_small_iff in Hq; lia.
  - assert (Hlen : (32 <= length xs)%nat).
    { destruct (Nat.lt_ge_cases (length xs) 32) as [Hlt|]; [|done].
      apply Nat.div_small in Hlt. lia. }
    assert (Htake : length (take 32 xs) = 32%nat) by (rewrite length_take; lia).
    rewrite <- (take_drop 32 xs) at 1.
    rewrite lines_of_window by (rewrite mod32_mul; lia).
    rewrite Htake. replace (32 * m + 32)%nat with (32 * (m + 1))%nat by lia.
    rewrite (IH (m + 1)%nat (drop 32 xs)).
    2:{ rewrite length_drop.
        replace (length xs) with (length xs - 32 + 1 * 32)%nat in Hq by lia.
        rewrite Nat.div_add in Hq by lia. lia. }
    cbn [seq map]. f_equal.
    + f_equal. lia.
    + rewrite <- seq_shift, map_map. apply map_ext. intros k.
      rewrite drop_drop. f_equal; [lia|]. do 3 f_equal. lia.
Qed.

Lemma flat_map_all_nil {A B : Type} (f : A -> list B) (l : list A) :
  Forall (fun x => f x = []) l -> flat_map f l = [].
Proof.
  induction 1 as [|x l Hx _ IH]; [done|]. cbn. by rewrite Hx, IH.
Qed.

Section Report_properties.

Variables (scalar G Loss Opt : Type).
Variable embed : list (list string) -> list Example -> Network.tensor3 scalar * list Z.
Variable label_id : string -> Z.
Variable criterion : list scalar -> list Z -> Loss.
Variable update : Opt -> Main.Net scalar G -> Loss -> Opt * Main.Net scalar G.
Variable item : Loss -> spec_float.
Variable train_loader : nat -> list (list Example).

Lemma losses_run (h : list (list string)) (batches : list (list Example)) :
  forall (opt : Opt) (net : Main.Net scalar G) (g : G),
    match Main.train_epoch embed label_id criterion update h opt net g batches with
    | Some _ =>
        exists xs,
          Report.losses embed label_id criterion update item h opt net g batches
          = Some xs
          /\ length xs = length batches
    | None =>
        Report.losses embed label_id criterion update item h opt net g batches
        = None
    end.
Proof using Type.
  induction batches as [|batch rest IH]; intros opt net g.
  - by exists [].
  - cbn [Main.train_epoch Report.losses].
    destruct (Main.train_batch _ _ _ _ _ _ _ _ _)
      as [[loss [[opt' net'] g']]|]; [|done]. cbn.
    specialize (IH opt' net' g').
    destruct (Main.train_epoch _ _ _ _ _ _ _ _ _) as [r|].
    + destruct IH as (xs & -> & Hlen). cbn. eexists. split; [done|].
      cbn. by rewrite Hlen.
    + by rewrite IH.
Qed.

Lemma train_epoch_lines (h : list (list string)) (epoch : nat)
    (batches : list (list Example)) :
  forall (opt : Opt) (net : Main.Net scalar G) (g : G) (i : nat)
         (running_loss : spec_float) (out : list Report.line),
    Report.train_epoch embed label_id criterion update item h epoch opt net g
      i running_loss batches out
    = match Main.train_epoch embed label_id criterion update h opt net g batches,
            Report.losses embed label_id criterion update item h opt net g batches
      with
      | Some r, Some xs =>
          Some (r, out ++ Report.lines_of epoch i running_loss xs)
      | _, _ => None
      end.
Proof using Type.
  induction batches as [|batch rest IH]; intros opt net g i rl out.
  - cbn. by rewrite app_nil_r.
  - cbn [Report.train_epoch Main.train_epoch Report.losses].
    destruct (Main.train_batch _ _ _ _ _ _ _ _ _)
      as [[loss [[opt' net'] g']]|]; [|done]. cbn -[Nat.modulo].
    destruct (i mod 32 =? 31)%nat eqn:E; rewrite IH;
      (destruct (Main.train_epoch _ _ _ _ _ _ _ _ _) as [r|]; [|done]);
      (destruct (Report.losses _ _ _ _ _ _ _ _ _ _) as [xs|]; [|done]);
      cbn [mbind option_bind Report.lines_of]; rewrite E;
      by rewrite <- ?app_assoc.
Qed.

(** X16. The lines of one epoch.  Keeping the running loss and printing
    change nothing in the training: the optimiser, the network and the
    generator after the epoch are those of the loop without them, and the
    epoch raises when that loop does.  With [n] batches the epoch prints
    [n / 32] lines (integer division), after the batches 32, 64, ...; the
    line after batch [32 * (k + 1)] shows the sum of the losses of the
    batches [32 * k + 1] to [32 * (k + 1)], added in this order from 0.0,
    divided by 32.  The losses of the batches after the last multiple of
    32 are shown nowhere. *)
Theorem train_epoch_reports (h : list (list string)) (epoch : nat)
    (opt : Opt) (net : Main.Net scalar G) (g : G)
    (batches : list (list Example)) :
  match Main.train_epoch embed label_id criterion update h opt net g batches with
  | Some r =>
      exists xs,
        Report.losses embed label_id criterion update item h opt net g batches
        = Some xs
        /\ length xs = length batches
        /\ Report.train_epoch embed label_id criterion update item h epoch
             opt net g 0 (Float.of_Z 0) batches []
           = Some (r, map (fun k =>
                             Report.mkLine (epoch + 1) (32 * (k + 1))
                               (Report.window_mean (take 32 (drop (32 * k) xs))))
                        (seq 0 (length batches / 32)))
  | None =>
      Report.train_epoch embed label_id criterion update item h epoch
        opt net g 0 (Float.of_Z 0) batches []
      = None
  end.
Proof using Type.
  rewrite train_epoch_lines. pose proof (losses_run h batches opt net g) as Hl.
  destruct (Main.train_epoch _ _ _ _ _ _ _ _ _) as [r|]; [|done].
  destruct Hl as (xs & -> & Hlen). exists xs. split; [done|]. split; [done|].
  cbn [app]. change 0%nat with (32 * 0)%nat at 1.
  rewrite (lines_of_windows epoch (length batches / 32) 0 xs)
    by (by rewrite Hlen).
  reflexivity.
Qed.

Lemma train_loop_lines (h : list (list string)) (epochs : list nat) :
  forall (opt : Opt) (net : Main.Net scalar G) (g : G)
         (out : list Report.line) r out',
    Report.train_loop embed label_id criterion update item train_loader h
      opt net g epochs out = Some (r, out') ->
    exists new,
      out' = out ++ new
      /\ map (fun l => (Report.line_epoch l, Report.line_batch l)) new
         = flat_map (fun e =>
                       map (fun k => ((e + 1)%nat, (32 * (k + 1))%nat))
                         (seq 0 (length (train_loader e) / 32)))
             epochs.
Proof using Type.
  induction epochs as [|e rest IH]; intros opt net g out r out' Hrun.
  - cbn in Hrun. injection Hrun as _ <-. exists []. by rewrite app_nil_r.
  - cbn [Report.train_loop] in Hrun. rewrite train_epoch_lines in Hrun.
    pose proof (losses_run h (train_loader e) opt net g) as Hl.
    destruct (Main.train_epoch _ _ _ _ _ _ _ _ _) as [[[opt' net'] g']|];
      [|done].
    destruct Hl as (xs & Hxs & Hlen). rewrite Hxs in Hrun. cbn in Hrun.
    apply IH in Hrun as (new & -> & Hnew).
    exists (Report.lines_of e 0 (Float.of_Z 0) xs ++ new).
    split; [by rewrite app_assoc|].
    rewrite map_app, Hnew. cbn [flat_map]. f_equal.
    change 0%nat with (32 * 0)%nat at 1.
    rewrite (lines_of_windows e (length (train_loader e) / 32) 0 xs)
      by (by rewrite Hlen).
    rewrite map_map. reflexivity.
Qed.

(** X17. The lines of a whole training that returns: for the epochs 1 to
    10, in this order, the lines after the batches 32, 64, ... of the
    epoch, as many as the number of its batches divided by 32; the
    running loss starts again from 0 in every epoch.  When every epoch
    has fewer than 32 batches the training prints no line at all. *)
Theorem train_reports (h : list (list string)) (opt : Opt)
    (net : Main.Net scalar G) (g : G) r (out : list Report.line) :
  Report.train embed label_id criterion update item train_loader h opt net g
  = Some (r, out) ->
  map (fun l => (Report.line_epoch l, Report.line_batch l)) out
  = flat_map (fun e =>
                map (fun k => ((e + 1)%nat, (32 * (k + 1))%nat))
                  (seq 0 (length (train_loader e) / 32)))
      (seq 0 10)
  /\ ((forall e, (e < 10)%nat -> (length (train_loader e) < 32)%nat) ->
      out = []).
Proof using Type.
  intros Hrun. apply train_loop_lines in Hrun as (new & -> & Hnew).
  cbn [app]. split; [done|]. intros Hshort.
  assert (Hnil : flat_map (fun e =>
                   map (fun k => ((e + 1)%nat, (32 * (k + 1))%nat))
                     (seq 0 (length (train_loader e) / 32))) (seq 0 10) = []).
  { apply flat_map_all_nil. apply Forall_forall. intros e He.
    apply elem_of_seq in He. rewrite Nat.div_small by (apply Hshort; lia).
    done. }
  rewrite Hnil in Hnew. by destruct new.
Qed.

End Report_properties.

Lemma train_reports_witness :
  exists r out,
    Report.train Toy.embed Toy.label_id (fun _ _ => tt)
      (fun (opt : unit) (net : Main.Net Z unit) (_ : unit) => (opt, net))
      (fun _ => Float.of_Z 1) (fun e => replicate (32 + e) Toy.train)
      Toy.store tt Toy.net tt
    = Some (r, out)
    /\ map (fun l => (Report.line_epoch l, Report.line_batch l)) out
       = flat_map (fun e =>
                     map (fun k => ((e + 1)%nat, (32 * (k + 1))%nat))
                       (seq 0 (length (replicate (32 + e) Toy.train) / 32)))
           (seq 0 10).
Proof.
  eexists _, _. split; [vm_compute; reflexivity|].
  refine (proj1 (train_reports Z unit unit unit Toy.embed Toy.label_id
                   (fun _ _ => tt)
                   (fun (opt : unit) (net : Main.Net Z unit) (_ : unit) =>
                      (opt, net))
                   (fun _ => Float.of_Z 1)
                   (fun e => replicate (32 + e) Toy.train)
                   Toy.store tt Toy.net tt _ _ _)).
  vm_compute. reflexivity.
Defined.
